(** * Passport-post store: the handlers of controllers/passportController.js

    A shallow embedding of the request handlers that create, read, update
    and delete passport posts and the passports embedded in them, together
    with the schema of models/passportSchema.

    What is modelled, and how:
    - a request body is parsed JSON: an entry of [req.body.passports] is a
      finite map from property names to JSON scalars ([jobj]); the objects
      the handlers build with spread syntax are maps to JavaScript values
      ([obj]), with [insert] and the left-biased union playing the role of
      property order in an object literal;
    - the collection is the list of its documents in the order [find()]
      returns them, the users collection is the list of the identifiers of
      the accounts that exist, and the ObjectId generator is a counter;
    - a handler is a function from the store, the authenticated user
      ([req.user]), the clock reading and the request to a response and
      the next store;
    - of the ODM, the cast of a plain object to a subdocument of
      [passports] is modelled with the schema of models/passportSchema:
      the [_id] and [postDate] paths with their defaults, the String paths
      with their casts, [trim] setters and validators (required, match,
      minlength, maxlength), and strict mode, which drops every other
      path; so is [populate]. A string is the sequence of its code units.
      Stored documents are taken to satisfy the schema and every stored
      passport to have an ObjectId as [_id]; the [:id] parameter of the
      post-level routes is compared with the stored identifiers as they
      render, in lower case. The audit log written by [logDeletedPassport]
      and the [createdAt]/[updatedAt] stamps are not modelled. *)

From stdpp Require Import gmap strings list fin_maps pretty.
From Stdlib Require Import ZArith Ascii.

Local Open Scope Z_scope.

(** ** Values *)

(** A JSON scalar of a request body. Numbers are integer literals. *)
Inductive json :=
| JNull
| JBool (b : bool)
| JNum (n : Z)
| JStr (s : string).

Definition oid := string.

(** A value held by an object that a handler builds: a value copied from the
    request, a [Date] (milliseconds since the epoch), an [ObjectId] (its
    [toString()] rendering) or [undefined]. *)
Inductive jsval :=
| VUndef
| VJson (j : json)
| VDate (ms : Z)
| VOid (i : oid).

Abbreviation jobj := (gmap string json).
Abbreviation obj := (gmap string jsval).

(** [!!v] of JavaScript. *)
Definition truthy (v : json) : bool :=
  match v with
  | JNull => false
  | JBool b => b
  | JNum n => negb (n =? 0)
  | JStr s => negb (String.eqb s "")
  end.

(** ** Strings *)

Definition toLowerAscii (a : ascii) : ascii :=
  let n := nat_of_ascii a in
  if ((65 <=? n) && (n <=? 90))%nat then ascii_of_nat (n + 32) else a.

Fixpoint toLower (s : string) : string :=
  match s with
  | EmptyString => EmptyString
  | String a s' => String (toLowerAscii a) (toLower s')
  end.

(** The white space and line terminators that [trim] removes, among the
    code units below 256: tab, line feed, vertical tab, form feed,
    carriage return, space and no-break space. *)
Definition isWhiteSpace (a : ascii) : bool :=
  let n := nat_of_ascii a in
  ((9 <=? n) && (n <=? 13) || (n =? 32) || (n =? 160))%nat.

Fixpoint trimStart (s : string) : string :=
  match s with
  | EmptyString => EmptyString
  | String a s' => if isWhiteSpace a then trimStart s' else s
  end.

Fixpoint trimEnd (s : string) : string :=
  match s with
  | EmptyString => EmptyString
  | String a s' =>
      match trimEnd s' with
      | EmptyString => if isWhiteSpace a then EmptyString else String a EmptyString
      | t => String a t
      end
  end.

(** [s.trim()]. *)
Definition trim (s : string) : string := trimEnd (trimStart s).

Fixpoint zeros (k : nat) : string :=
  match k with
  | O => ""
  | S k' => String "0" (zeros k')
  end.

(** ** Numbers *)

(** The double that an integer literal [a >= 0] denotes: the nearest one,
    a tie going to the even mantissa; [None] stands for [Infinity]. *)
Definition roundToDouble (a : Z) : option Z :=
  if a <? 2 ^ 53 then Some a
  else
    let e := Z.log2 a - 52 in
    let q := a / 2 ^ e in
    let r := a mod 2 ^ e in
    let half := 2 ^ (e - 1) in
    let q' := if (half <? r) || ((r =? half) && Z.odd q) then q + 1 else q in
    let d := q' * 2 ^ e in
    if d <? 2 ^ 1024 then Some d else None.

(** For a double [v >= 2^53]: four times the distances from [v] down and up
    to the ends of the interval of the reals that round to [v], and whether
    the ends belong to it (they do when the mantissa is even). *)
Definition roundingInterval (v : Z) : Z * Z * bool :=
  let e := Z.log2 v - 52 in
  let m := v / 2 ^ e in
  (if m =? 2 ^ 52 then 2 ^ e else 2 ^ (e + 1), 2 ^ (e + 1), Z.even m).

(** The real [c] rounds to the double [v]. *)
Definition roundsTo (v c : Z) : bool :=
  let '(below, above, closed) := roundingInterval v in
  let d := 4 * (c - v) in
  if closed then (- below <=? d) && (d <=? above)
  else (- below <? d) && (d <? above).

(** Some multiple of [10^j] rounds to [v]. *)
Definition shortens (v j : Z) : bool :=
  let s := v / 10 ^ j in
  roundsTo v (s * 10 ^ j) || roundsTo v ((s + 1) * 10 ^ j).

(** The largest [j] for which a multiple of [10^j] rounds to [v]. *)
Fixpoint trailing (fuel : nat) (v j : Z) : Z :=
  match fuel with
  | O => j
  | S fuel' => if shortens v (j + 1) then trailing fuel' v (j + 1) else j
  end.

(** The shortest digits [s] for which [s * 10^j] rounds to [v], the nearest
    to [v] when two numbers of that length do. *)
Definition shortest (v : Z) : Z * Z :=
  let j := trailing 330 v 0 in
  let s := v / 10 ^ j in
  let lo := s * 10 ^ j in
  let hi := (s + 1) * 10 ^ j in
  if roundsTo v lo && (negb (roundsTo v hi) || (v - lo <? hi - v)
                       || ((v - lo =? hi - v) && Z.even s))
  then (s, j) else (s + 1, j).

(** [Number.prototype.toString] on a positive double with an integer
    value: the digits, followed by zeros up to 21 places and written with
    an exponent beyond. *)
Definition formatDouble (v : Z) : string :=
  if v <? 2 ^ 53 then pretty v
  else
    let '(s, j) := shortest v in
    let digits := pretty s in
    let n := Z.of_nat (String.length digits) + j in
    if n <=? 21 then digits +:+ zeros (Z.to_nat j)
    else
      match digits with
      | String d rest =>
          String d (if String.eqb rest "" then "" else "." +:+ rest)
          +:+ "e+" +:+ pretty (n - 1)
      | EmptyString => ""
      end.

(** [String(n)] for the number that the integer literal [n] denotes. *)
Definition numberToString (n : Z) : string :=
  if n =? 0 then "0"
  else
    (if n <? 0 then "-" else "")
    +:+ match roundToDouble (Z.abs n) with
        | Some v => formatDouble v
        | None => "Infinity"
        end.

(** [String(v)], the property key that [m[v]] looks up and the cast of a
    scalar to a String path. *)
Definition propertyKey (v : json) : string :=
  match v with
  | JNull => "null"
  | JBool true => "true"
  | JBool false => "false"
  | JNum n => numberToString n
  | JStr s => s
  end.

(** ** Documents (models/passportSchema) *)

(** One element of the [passports] array: its [_id] ([passport_id]), its
    [postDate], and the remaining paths. *)
Record passport := Passport {
  passport_id : oid;
  postDate : Z;
  fields : obj
}.

(** A document of the collection; [post_id] is its [_id]. *)
Record post := Post {
  post_id : oid;
  passports : list passport;
  createdBy : oid;
  updatedBy : option oid
}.

Record db := Db {
  posts : list post;
  users : list oid;
  nextOid : nat
}.

#[global] Instance json_eq_dec : EqDecision json.
Proof. solve_decision. Defined.
#[global] Instance jsval_eq_dec : EqDecision jsval.
Proof. solve_decision. Defined.
#[global] Instance passport_eq_dec : EqDecision passport.
Proof. solve_decision. Defined.
#[global] Instance post_eq_dec : EqDecision post.
Proof. solve_decision. Defined.

(** [req.user]. *)
Record user := User {
  user_id : string;
  user_role : string
}.

(** ** Responses *)

(** [CastError]: a query value does not cast to the type of its path;
    [ValidationError]: a document does not satisfy its schema on [save] or
    [create]; [TypeErrorNull]: a property of [null] is read. *)
Inductive exn :=
| CastError
| ValidationError
| TypeErrorNull.

(** The message of an [ErrorResponse]: a literal text, or a prefix followed
    by the [message] of a caught exception. *)
Inductive message :=
| Text (s : string)
| Caught (pre : string) (e : exn).

Inductive payload :=
| PostData (p : post)
| PassportData (e : passport) (owner : oid) (postId : oid)
| UpdatedData (p : post) (updatedPassport : option passport)
| DeletedData (msg : string) (deletedPassport : string) (postId : oid)
| PostDeleted (msg : string)
| BatchData (msg : string) (count : nat) (deleted : list oid)
            (errors : option (list (json * string))).

(** [Error c m] is [next(new ErrorResponse(m, c))], [Json c b] is
    [res.status(c).json(b)], and [Thrown e] is an exception that leaves the
    handler and that [asyncHandler] passes to the error middleware. *)
Inductive response :=
| Error (statusCode : nat) (m : message)
| Json (statusCode : nat) (body : payload)
| Thrown (e : exn).

(** ** The ODM *)

Definition isHexDigit (a : ascii) : bool :=
  let n := nat_of_ascii a in
  ((48 <=? n) && (n <=? 57) || (97 <=? n) && (n <=? 102)
   || (65 <=? n) && (n <=? 70))%nat.

(** The strings that cast to an ObjectId. *)
Definition isHex24 (s : string) : bool :=
  (String.length s =? 24)%nat && forallb isHexDigit (String.list_ascii_of_string s).

(** The identifier the generator hands out at counter [n]. *)
Definition genObjectId (n : nat) : oid :=
  let d := pretty n in zeros (24 - String.length d) +:+ d.

(** The stored document with a given [_id], or [null]. *)
Definition findDoc (id : oid) (ps : list post) : option post :=
  snd <$> list_find (λ q, post_id q = id) ps.

(** [Model.findById(req.params.id)]: a cast error on a malformed
    parameter, else the document or [null]. The parameter is compared with
    the stored identifiers as they render. *)
Definition findById (id : string) (ps : list post) : exn + option post :=
  if isHex24 id then inr (findDoc id ps) else inl CastError.

(** [doc.deleteOne()]. *)
Definition deleteOne (p : post) (s : db) : db :=
  Db (filter (λ q, post_id q ≠ post_id p) (posts s)) (users s) (nextOid s).

(** [doc.save()]: the stored document with this [_id] is replaced. *)
Definition save (p : post) (s : db) : db :=
  Db ((λ q, if decide (post_id q = post_id p) then p else q) <$> posts s)
     (users s) (nextOid s).

(** ** Entry locator: the loop shared by the entry-level handlers *)

(** [passports.findIndex(p => p._id.toString() === passportId)]. *)
Definition findIndex (passportId : string) (l : list passport) : option nat :=
  fst <$> list_find (λ p, passport_id p = passportId) l.

(** [for (const post of posts)], leaving at the first post that holds the
    identifier. *)
Fixpoint locate (passportId : string) (ps : list post) : option (post * nat) :=
  match ps with
  | [] => None
  | post :: rest =>
      match findIndex passportId (passports post) with
      | Some passportIndex => Some (post, passportIndex)
      | None => locate passportId rest
      end
  end.

(** ** Deletion *)

(** The branch common to [deleteSinglePassport] and
    [deleteMultiplePassports]: the whole post goes when it holds one
    passport, else [splice(passportIndex, 1)] and [save]. *)
Definition removePassport (u : user) (p : post) (passportIndex : nat) (s : db) : db :=
  if decide (length (passports p) = 1%nat)
  then deleteOne p s
  else save (Post (post_id p) (delete passportIndex (passports p))
                  (createdBy p) (Some (user_id u))) s.

Definition deleteSinglePassport (s : db) (u : user) (passportId : string)
  : response * db :=
  match locate passportId (posts s) with
  | Some (p, passportIndex) =>
      (Json 200 (DeletedData "Passport deleted successfully" passportId (post_id p)),
       removePassport u p passportIndex s)
  | None =>
      (Error 404 (Text ("Passport not found with id " +:+ passportId)), s)
  end.

(** [deletePassportPost]: the ownership test is commented out in the source. *)
Definition deletePassportPost (s : db) (u : user) (id : string) : response * db :=
  match findById id (posts s) with
  | inl e => (Thrown e, s)
  | inr None => (Error 404 (Text ("Post not found with id " +:+ id)), s)
  | inr (Some p) =>
      (Json 200 (PostDeleted "Passport post deleted successfully"), deleteOne p s)
  end.

(** The body of [for (const passportId of passportIds)]. A stored identifier
    is [===] to a string only; [passportIndex] comes from [findIndex], so
    [post.passports[passportIndex]] is defined. *)
Fixpoint batchLoop (u : user) (passportIds : list json) (s : db)
    (deletedPassports : list passport) (errors : list (json * string))
  : db * list passport * list (json * string) :=
  match passportIds with
  | [] => (s, deletedPassports, errors)
  | passportId :: rest =>
      let found :=
        match passportId with
        | JStr k => locate k (posts s)
        | _ => None
        end in
      match found with
      | Some (p, passportIndex) =>
          match passports p !! passportIndex with
          | Some passportToDelete =>
              batchLoop u rest (removePassport u p passportIndex s)
                        (deletedPassports ++ [passportToDelete]) errors
          | None => batchLoop u rest s deletedPassports errors
          end
      | None =>
          batchLoop u rest s deletedPassports
                    (errors ++ [(passportId, "Passport not found")])
      end
  end.

(** The closing [res.status(200).json(...)]: [errors] is [undefined], and
    so absent from the body, when no identifier failed. *)
Definition batchResponse (deletedPassports : list passport)
    (errors : list (json * string)) : response :=
  Json 200
    (BatchData (pretty (length deletedPassports) +:+ " passports deleted successfully")
               (length deletedPassports)
               (passport_id <$> deletedPassports)
               (if decide (0 < length errors)%nat then Some errors else None)).

(** [req.body.passportIds] is [None] when it is missing or not an array. *)
Definition deleteMultiplePassports (s : db) (u : user)
    (passportIds : option (list json)) : response * db :=
  match passportIds with
  | None | Some [] =>
      (Error 400 (Text "Please provide an array of passport IDs to delete"), s)
  | Some ids =>
      let r := batchLoop u ids s [] [] in
      (batchResponse r.1.2 r.2, r.1.1)
  end.

(** ** Casting to the schema *)

(** The [_id] path of a subdocument given explicitly: an ObjectId is kept,
    a string of 24 hexadecimal digits is the ObjectId with these digits,
    which renders in lower case, and no other scalar of a request casts.
    ([null] is not cast but stored as it is; the passports of this model
    all have an ObjectId, and the object is refused here.) *)
Definition castObjectId (v : jsval) : option oid :=
  match v with
  | VOid i => Some i
  | VJson (JStr s) => if isHex24 s then Some (toLower s) else None
  | _ => None
  end.

(** The [_id] of the subdocument: generated when the object has none or
    has [undefined]. *)
Definition castId (o : obj) (n : nat) : option (oid * nat) :=
  match o !! "_id" with
  | None | Some VUndef => Some (genObjectId n, S n)
  | Some v => (λ i, (i, n)) <$> castObjectId v
  end.

(** The [postDate] of the subdocument, with the schema default [Date.now].
    The handlers below hand over a [Date] or [undefined] as [postDate],
    nothing else. *)
Definition castDate (now : Z) (o : obj) : option Z :=
  match o !! "postDate" with
  | None | Some VUndef => Some now
  | Some (VDate d) => Some d
  | Some _ => None
  end.

(** The String paths of the schema of a passport, each with its [trim]
    option. *)
Definition stringPaths : gmap string bool :=
  {[ "passportNumber" := true; "link" := false; "city" := true;
     "slipNo" := true; "issuedCountry" := true; "otherDetails" := true ]}.

(** The cast of a scalar to a String path: [null] stays [null], a boolean
    or a number becomes its [toString()]. *)
Definition castString (v : json) : json :=
  match v with
  | JNull => JNull
  | _ => JStr (propertyKey v)
  end.

(** What a String path holds once a value is set: the cast of the value,
    trimmed when the path has the [trim] setter; the path stays unset on
    [undefined]. An ObjectId casts to its rendering. The handlers below
    hand over a [Date] at [postDate] only. *)
Definition setString (trimmed : bool) (v : jsval) : option jsval :=
  let stored (c : json) :=
    match c with
    | JStr s => VJson (JStr (if trimmed then trim s else s))
    | _ => VJson c
    end in
  match v with
  | VJson j => Some (stored (castString j))
  | VOid i => Some (stored (JStr i))
  | VUndef | VDate _ => None
  end.

(** The paths of the subdocument other than [_id] and [postDate]: in
    strict mode only the paths of the schema are kept. *)
Definition fieldsOf (o : obj) : obj :=
  map_imap (λ k v, trimmed ← stringPaths !! k; setString trimmed v) o.

(** The string held by a path, if it holds one. *)
Definition stringAt (f : obj) (k : string) : option string :=
  match f !! k with
  | Some (VJson (JStr s)) => Some s
  | _ => None
  end.

(** [required: true] on a String path: a string that is not empty. *)
Definition required (f : obj) (k : string) : bool :=
  match stringAt f k with
  | Some s => negb (String.eqb s "")
  | None => false
  end.

Fixpoint stripPrefix (prefix s : string) : option string :=
  match prefix, s with
  | EmptyString, _ => Some s
  | String a prefix', String b s' =>
      if Ascii.eqb a b then stripPrefix prefix' s' else None
  | String _ _, EmptyString => None
  end.

(** The [match] expression of [link]: http or https, a colon and two
    slashes, then one character or more, none of them a space or a double
    quote, up to the end of the string. *)
Definition linkPattern (s : string) : bool :=
  let rest :=
    match stripPrefix "http://" s with
    | Some r => Some r
    | None => stripPrefix "https://" s
    end in
  match rest with
  | Some r =>
      negb (String.eqb r "")
      && forallb (λ a, negb ((nat_of_ascii a =? 32) || (nat_of_ascii a =? 34))%nat)
                 (String.list_ascii_of_string r)
  | None => false
  end.

(** The validators of the schema: [passportNumber], [link] and
    [issuedCountry] are required, [link] matches its expression, and
    [issuedCountry] has from 2 to 50 characters. *)
Definition validPassport (f : obj) : bool :=
  required f "passportNumber"
  && required f "link"
  && default true (linkPattern <$> stringAt f "link")
  && required f "issuedCountry"
  && default true ((λ c, (2 <=? String.length c) && (String.length c <=? 50))%nat
                     <$> stringAt f "issuedCountry").

(** A plain object becomes a subdocument of [passports], or the document
    fails its validation. *)
Definition castPassport (now : Z) (o : obj) (n : nat) : option (passport * nat) :=
  '(i, n') ← castId o n;
  d ← castDate now o;
  let f := fieldsOf o in
  if validPassport f then Some (Passport i d f, n') else None.

Fixpoint castPassports (now : Z) (os : list obj) (n : nat)
  : option (list passport * nat) :=
  match os with
  | [] => Some ([], n)
  | o :: rest =>
      '(e, n1) ← castPassport now o n;
      '(es, n2) ← castPassports now rest n1;
      Some (e :: es, n2)
  end.

(** [populate('createdBy')]: the referenced account, or [null] when it no
    longer exists. *)
Definition populate (s : db) (ref : oid) : option oid :=
  if decide (ref ∈ users s) then Some ref else None.

(** ** Creation *)

(** [Date.now() + 5.5 * 60 * 60 * 1000]. *)
Definition getCurrentIST (now : Z) : Z := now + 19800000.

(** [req.body.passports] is [None] when it is missing or not an array. *)
Definition createPassportPost (s : db) (u : user) (now : Z)
    (body_passports : option (list jobj)) : response * db :=
  match body_passports with
  | None | Some [] =>
      (Error 400 (Text "At least one passport entry is required"), s)
  | Some ps =>
      let currentIST := getCurrentIST now in
      let passportsWithDate :=
        (λ passport : jobj, <["postDate" := VDate currentIST]> (VJson <$> passport)) <$> ps in
      match castPassports now passportsWithDate (S (nextOid s)) with
      | None => (Thrown ValidationError, s)
      | Some (docs, n) =>
          let passportPost := Post (genObjectId (nextOid s)) docs (user_id u) None in
          (Json 201 (PostData passportPost),
           Db (posts s ++ [passportPost]) (users s) n)
      end
  end.

(** ** Post-level update *)

(** [existingPassportsMap]: filled by [forEach], a later passport with the
    same key replacing an earlier one. *)
Definition existingPassportsMap (originalPost : post) : gmap string (oid * Z) :=
  foldl (λ m p, <[passport_id p := (passport_id p, postDate p)]> m) ∅
        (passports originalPost).

(** The property names every object literal inherits from
    [Object.prototype]. *)
Definition objectPrototypeKeys : list string :=
  ["constructor"; "hasOwnProperty"; "isPrototypeOf"; "propertyIsEnumerable";
   "toLocaleString"; "toString"; "valueOf"; "__defineGetter__";
   "__defineSetter__"; "__lookupGetter__"; "__lookupSetter__"; "__proto__"].

(** What [existingPassportsMap[key]] evaluates to: an own property, an
    inherited one (a function or the prototype itself, truthy, with neither
    [_id] nor [postDate]), or [undefined]. *)
Inductive slot :=
| Own (e : oid * Z)
| Inherited
| Missing.

Definition getProperty (m : gmap string (oid * Z)) (key : string) : slot :=
  match m !! key with
  | Some e => Own e
  | None => if decide (key ∈ objectPrototypeKeys) then Inherited else Missing
  end.

(** [passport._id && existingPassportsMap[passport._id]]. *)
Definition existingFor (m : gmap string (oid * Z)) (passport : jobj) : slot :=
  match passport !! "_id" with
  | Some v => if truthy v then getProperty m (propertyKey v) else Missing
  | None => Missing
  end.

(** The callback of [req.body.passports.map]. *)
Definition processPassport (m : gmap string (oid * Z)) (currentIST : Z)
    (passport : jobj) : obj :=
  match existingFor m passport with
  | Own (i, d) =>
      <["postDate" := VDate d]>
        (<["_id" := VOid i]> (VJson <$> delete "postDate" passport))
  | Inherited =>
      <["postDate" := VUndef]>
        (<["_id" := VUndef]> (VJson <$> delete "postDate" passport))
  | Missing =>
      <["postDate" := VDate currentIST]> (VJson <$> passport)
  end.

Definition notOwnerNorAdmin (owner : oid) (u : user) : Prop :=
  owner ≠ user_id u ∧ user_role u ≠ "admin".

Definition updatePassportPost (s : db) (u : user) (now : Z) (id : string)
    (body_passports : option (list jobj)) : response * db :=
  match findById id (posts s) with
  | inl e => (Error 500 (Caught "Error updating passport post: " e), s)
  | inr None => (Error 404 (Text ("Post not found with id " +:+ id)), s)
  | inr (Some originalPost) =>
      if decide (notOwnerNorAdmin (createdBy originalPost) u)
      then (Error 403 (Text "Not authorized to update this post"), s)
      else
        match body_passports with
        | None | Some [] =>
            (Error 400 (Text "At least one passport entry is required"), s)
        | Some ps =>
            let m := existingPassportsMap originalPost in
            let currentIST := getCurrentIST now in
            let processedPassports := processPassport m currentIST <$> ps in
            match castPassports now processedPassports (nextOid s) with
            | None =>
                (Error 500 (Caught "Error updating passport post: " ValidationError), s)
            | Some (docs, n) =>
                let s' := save (Post (post_id originalPost) docs
                                     (createdBy originalPost) (Some (user_id u)))
                               (Db (posts s) (users s) n) in
                match findDoc (post_id originalPost) (posts s') with
                | Some updatedPost => (Json 200 (PostData updatedPost), s')
                | None =>
                    (Error 500 (Caught "Error updating passport post: " TypeErrorNull), s')
                end
            end
        end
  end.

(** ** Entry-level update and read *)

Definition updateSinglePassport (s : db) (u : user) (now : Z)
    (passportId : string) (body : jobj) : response * db :=
  match locate passportId (posts s) with
  | None => (Error 404 (Text ("Passport not found with id " +:+ passportId)), s)
  | Some (p, passportIndex) =>
      if decide (notOwnerNorAdmin (createdBy p) u)
      then (Error 403 (Text "Not authorized to update this passport"), s)
      else
        match passports p !! passportIndex with
        | None => (Error 500 (Caught "Error updating passport: " TypeErrorNull), s)
        | Some originalPassport =>
            let updatedPassport : obj :=
              <["postDate" := VDate (postDate originalPassport)]>
                ((VJson <$> body) ∪ {["_id" := VOid (passport_id originalPassport)]}) in
            match castPassport now updatedPassport (nextOid s) with
            | None =>
                (Error 500 (Caught "Error updating passport: " ValidationError), s)
            | Some (doc, n) =>
                let s' := save (Post (post_id p) (<[passportIndex := doc]> (passports p))
                                     (createdBy p) (Some (user_id u)))
                               (Db (posts s) (users s) n) in
                match findDoc (post_id p) (posts s') with
                | Some updatedPost =>
                    (Json 200 (UpdatedData updatedPost
                                 (passports updatedPost !! passportIndex)), s')
                | None => (Error 500 (Caught "Error updating passport: " TypeErrorNull), s')
                end
            end
        end
  end.

(** The search loop of [getSinglePassport], which keeps the passport that
    [passports.find] returns. *)
Fixpoint locateFind (passportId : string) (ps : list post) : option (post * passport) :=
  match ps with
  | [] => None
  | post :: rest =>
      match list_find (λ p, passport_id p = passportId) (passports post) with
      | Some (_, passport) => Some (post, passport)
      | None => locateFind passportId rest
      end
  end.

(** The posts are fetched with [createdBy] populated, so the owner test
    reads [foundPost.createdBy._id] and throws inside the [try] when the
    reference is [null]. *)
Definition getSinglePassport (s : db) (u : user) (passportId : string) : response :=
  match locateFind passportId (posts s) with
  | None => Error 404 (Text ("Passport not found with id " +:+ passportId))
  | Some (foundPost, foundPassport) =>
      match populate s (createdBy foundPost) with
      | None => Error 500 (Caught "Error retrieving passport: " TypeErrorNull)
      | Some owner =>
          if decide (notOwnerNorAdmin owner u)
          then Error 403 (Text "Not authorized to access this passport")
          else Json 200 (PassportData foundPassport owner (post_id foundPost))
      end
  end.

(** ** Well-formedness of the store *)

(** The identifiers of all passports held by a list of posts. *)
Definition allIds (ps : list post) : list oid :=
  passport_id <$> (ps ≫= passports).

(** Passport identifiers are unique across the store. *)
Definition uniqueIds (s : db) : Prop := NoDup (allIds (posts s)).

(** Post identifiers are unique (the primary key of the collection). *)
Definition uniquePosts (s : db) : Prop := NoDup (post_id <$> posts s).

(** No stored post has an empty [passports] array. *)
Definition noEmptyPost (s : db) : Prop :=
  Forall (λ q, passports q ≠ []) (posts s).

(** A supplied entry carries the identifier [i]: its [_id] is truthy and
    names the property [i]. *)
Definition carries (o : jobj) (i : oid) : Prop :=
  ∃ v, o !! "_id" = Some v ∧ truthy v = true ∧ propertyKey v = i.

(** The identifier [i] was handed out by the generator between the stores
    [s] and [s']. *)
Definition generatedIn (s s' : db) (i : oid) : Prop :=
  ∃ n, (nextOid s ≤ n < nextOid s')%nat ∧ i = genObjectId n.

(** The handler answered 200. *)
Definition succeeded (r : response) : bool :=
  match r with
  | Json 200 _ => true
  | _ => false
  end.

(** The post that a response carries, if any. *)
Definition postOf (r : response) : option post :=
  match r with
  | Json _ (PostData p) => Some p
  | Json _ (UpdatedData p _) => Some p
  | _ => None
  end.

(** ** A small store, for the examples *)

Definition alice : user := User "64b7f0c2a1d3e4f5a6b7c8d1" "user".
Definition bob : user := User "64b7f0c2a1d3e4f5a6b7c8d2" "user".
Definition root : user := User "64b7f0c2a1d3e4f5a6b7c8d0" "admin".

Definition entryFields (passportNumber link : string) : jobj :=
  {[ "passportNumber" := JStr passportNumber;
     "link" := JStr link;
     "issuedCountry" := JStr "India" ]}.

Definition passportA : passport :=
  Passport "65a1c3e5f7a9b1c3e5f7a901" 1700000000000
           (VJson <$> entryFields "P1234567" "https://x.test/a").
Definition passportB : passport :=
  Passport "65a1c3e5f7a9b1c3e5f7a902" 1700000000500
           (VJson <$> entryFields "P7654321" "https://x.test/b").
Definition passportC : passport :=
  Passport "65a1c3e5f7a9b1c3e5f7a903" 1700000360000
           (VJson <$> entryFields "K5550001" "https://x.test/c").

Definition post1 : post :=
  Post "65b2d4f6a8c0e2a4c6e8b001" [passportA; passportB] (user_id alice) None.
Definition post2 : post :=
  Post "65b2d4f6a8c0e2a4c6e8b002" [passportC] (user_id alice) None.

Definition sample_db : db :=
  Db [post1; post2] [user_id root; user_id alice; user_id bob] 0.

(** A request entry that names [passportA] and brings a [postDate] of its
    own. *)
Definition entryForA : jobj :=
  <["_id" := JStr "65a1c3e5f7a9b1c3e5f7a901"]>
    (<["postDate" := JStr "2001-01-01T00:00:00.000Z"]>
       (entryFields "P1234567" "https://x.test/a2")).

(** A request entry that names [passportA] with the digits of its
    identifier in upper case. *)
Definition entryUpperA : jobj :=
  <["_id" := JStr "65A1C3E5F7A9B1C3E5F7A901"]>
    (entryFields "P1234567" "https://x.test/a2").

(** A request entry with padded strings and a path that the schema does
    not have. *)
Definition entryPadded : jobj :=
  <["city" := JStr "  Pune "]>
    (<["remark" := JStr "urgent"]>
       (entryFields " N0000004  " "https://x.test/p")).

(** A request entry under an identifier that no stored passport has,
    with digits in upper case. *)
Definition entryUnknownUpper : jobj :=
  <["_id" := JStr "65A1C3E5F7A9B1C3E5F7A9FE"]>
    (entryFields "N0000005" "https://x.test/u").

(** A request entry under an identifier that no stored passport has. *)
Definition entryUnknownId : jobj :=
  <["_id" := JStr "65a1c3e5f7a9b1c3e5f7a9ff"]>
    (entryFields "N0000001" "https://x.test/n").

(** A request entry whose [_id] names a property that every object
    inherits. *)
Definition entryConstructor : jobj :=
  <["_id" := JStr "constructor"]> (entryFields "N0000002" "https://x.test/m").

(** A request entry without [_id]. *)
Definition entryNoId : jobj := entryFields "N0000003" "https://x.test/k".

(** The same posts after the account of their owner was deleted. *)
Definition orphaned_db : db :=
  Db [post1; post2] [user_id root; user_id bob] 0.

Definition sample_now : Z := 1700000400000.

(** ** The post-level read *)

(** [getPassportPost]: the post is fetched with [createdBy] populated, and
    the owner test is not inside a [try]. *)
Definition getPassportPost (s : db) (u : user) (id : string) : response :=
  match findById id (posts s) with
  | inl e => Thrown e
  | inr None => Error 404 (Text ("Post not found with id " +:+ id))
  | inr (Some p) =>
      match populate s (createdBy p) with
      | None => Thrown TypeErrorNull
      | Some owner =>
          if decide (notOwnerNorAdmin owner u)
          then Error 403 (Text "Not authorized to access this post")
          else Json 200 (PostData p)
      end
  end.

(** ** The search by country *)

(** The [issuedCountry] of a passport, when it is a string. *)
Definition issuedCountry (e : passport) : option string :=
  match fields e !! "issuedCountry" with
  | Some (VJson (JStr c)) => Some c
  | _ => None
  end.

Section Listing.

(** [sort('-createdAt')], the creation stamps not being part of [post]. *)
Variable sortByCreatedAtDesc : list post → list post.

(** [new RegExp(pattern, 'i')] and its matching: [None] when the pattern is
    not a regular expression and the constructor throws. *)
Variable regExp : string → option (string → bool).

(** The filter of [getPassportsByCountry]: a passport of the post matches
    the expression, and the post is the caller's unless the caller is an
    admin. *)
Definition countryQuery (test : string → bool) (u : user) (p : post) : bool :=
  existsb (λ e, default false (test <$> issuedCountry e)) (passports p)
  && (bool_decide (user_role u = "admin")
      || bool_decide (createdBy p = user_id u)).

(** [getPassportsByCountry]: [count] and [data], or [None] when the
    constructor of the expression throws. *)
Definition getPassportsByCountry (s : db) (u : user) (countryName : string)
  : option (nat * list post) :=
  test ← regExp countryName;
  let found := sortByCreatedAtDesc (filter (λ p, countryQuery test u p = true) (posts s)) in
  Some (length found, found).

End Listing.

(** ** The statics of the model (models/passportSchema) *)

Module PassportPost.

(** [this.findOne({ 'passports._id': passportId })]: the value is cast to
    an ObjectId, which a malformed string fails and which is blind to the
    case of the digits; stored identifiers render in lower case. *)
Definition findOne (passportId : string) (ps : list post) : exn + option post :=
  if isHex24 passportId
  then inr (snd <$> list_find
              (λ q, toLower passportId ∈ passport_id <$> passports q) ps)
  else inl CastError.

(** [post.passports.find(passport => passport._id.toString() === passportId)]. *)
Definition passportToRemove (passportId : string) (p : post) : option passport :=
  snd <$> list_find (λ e, passport_id e = passportId) (passports p).

(** What both statics do to the post they found: the whole post goes when
    it holds one passport, else the passports with this identifier are
    filtered out and the post is saved. *)
Definition remove (passportId : string) (userId : oid) (p : post) (s : db) : db :=
  if decide (length (passports p) = 1%nat)
  then deleteOne p s
  else save (Post (post_id p)
                  (filter (λ e, passport_id e ≠ passportId) (passports p))
                  (createdBy p) (Some userId)) s.

(** [deleteSinglePassport(passportId, userId)]: [null] when no post holds
    the identifier, else the array of the one removed passport (which is
    [undefined] when [find] misses it). *)
Definition deleteSinglePassport (s : db) (passportId : string) (userId : oid)
  : (exn + option (list (option passport))) * db :=
  match findOne passportId (posts s) with
  | inl e => (inl e, s)
  | inr None => (inr None, s)
  | inr (Some p) =>
      (inr (Some [passportToRemove passportId p]), remove passportId userId p s)
  end.

(** The loop of [deleteMultiplePassports]; an exception of [findOne] ends
    it, with the deletions made so far in the store. *)
Fixpoint deleteLoop (userId : oid) (passportIds : list string) (s : db)
    (deletedPassports : list passport) : (exn + list passport) * db :=
  match passportIds with
  | [] => (inr deletedPassports, s)
  | passportId :: rest =>
      match findOne passportId (posts s) with
      | inl e => (inl e, s)
      | inr None => deleteLoop userId rest s deletedPassports
      | inr (Some p) =>
          deleteLoop userId rest (remove passportId userId p s)
            (match passportToRemove passportId p with
             | Some e => deletedPassports ++ [e]
             | None => deletedPassports
             end)
      end
  end.

(** [deleteMultiplePassports(passportIds, userId)], on strings;
    [passportIds] is [None] when it is not an array. *)
Definition deleteMultiplePassports (s : db) (passportIds : option (list string))
    (userId : oid) : (exn + list passport) * db :=
  match passportIds with
  | None | Some [] => (inr [], s)
  | Some ids => deleteLoop userId ids s []
  end.

End PassportPost.

(** ** More well-formedness *)

(** Within each post the passport identifiers are distinct. *)
Definition uniqueWithin (s : db) : Prop :=
  Forall (λ q, NoDup (passport_id <$> passports q)) (posts s).

(** The canonical rendering of an ObjectId: 24 hexadecimal digits, in lower
    case. *)
Definition isObjectIdText (i : string) : Prop :=
  isHex24 i = true ∧ toLower i = i.

(** Every post of [s'] was in [s] under the same identifier and with the
    same owner. *)
Definition ownersKept (s s' : db) : Prop :=
  ∀ q', q' ∈ posts s' →
    ∃ q, q ∈ posts s ∧ post_id q = post_id q' ∧ createdBy q = createdBy q'.

(** [pattern] occurs in [s]. *)
Fixpoint occursIn (pattern s : string) : bool :=
  match stripPrefix pattern s with
  | Some _ => true
  | None =>
      match s with
      | EmptyString => false
      | String _ s' => occursIn pattern s'
      end
  end.

(** A matching for the examples, the expression of a pattern made of
    letters from a to z in either case, digits and spaces, with the flag
    [i]: the pattern occurs in the string, whatever the case of the
    letters. *)
Definition sampleRegExp (pattern : string) : option (string → bool) :=
  Some (λ c, occursIn (toLower pattern) (toLower c)).

(** * Properties *)

(** Closes a decidable goal on closed terms by evaluation. *)
Ltac by_compute := apply (bool_decide_unpack _); vm_compute; exact I.

(** Closes a goal [k ∉ l] on closed terms by evaluation. *)
Ltac not_elem_by_compute :=
  let H := fresh in
  intros H; apply (bool_decide_pack _) in H; vm_compute in H; exact H.


(** ** The entry locator *)

Lemma findIndex_Some passportId l i :
  findIndex passportId l = Some i →
  ∃ e, l !! i = Some e ∧ passport_id e = passportId
       ∧ ∀ j y, l !! j = Some y → (j < i)%nat → passport_id y ≠ passportId.
Proof.
  unfold findIndex. intros H.
  destruct (list_find _ l) as [[j e]|] eqn:E; simplify_eq/=.
  apply list_find_Some in E as (? & ? & ?). eauto.
Qed.

Lemma findIndex_None passportId l :
  findIndex passportId l = None ↔ passportId ∉ passport_id <$> l.
Proof.
  unfold findIndex. rewrite fmap_None, list_find_None, Forall_forall.
  rewrite list_elem_of_fmap. split.
  - intros H (e & -> & He). by apply (H e).
  - intros H e He <-. apply H. eauto.
Qed.

Lemma findIndex_NoDup l i e :
  NoDup (passport_id <$> l) → l !! i = Some e →
  findIndex (passport_id e) l = Some i.
Proof.
  intros Hnd Hi.
  destruct (findIndex (passport_id e) l) as [j|] eqn:E.
  - apply findIndex_Some in E as (y & Hj & Hy & _). f_equal.
    eapply NoDup_lookup; [exact Hnd| |]; rewrite list_lookup_fmap.
    + by rewrite Hj; simpl; rewrite Hy.
    + by rewrite Hi.
  - apply findIndex_None in E. exfalso. apply E.
    apply list_elem_of_fmap. exists e. split; [done|].
    by eapply list_elem_of_lookup_2.
Qed.

Lemma locate_Some passportId ps p i :
  locate passportId ps = Some (p, i) →
  p ∈ ps ∧ ∃ e, passports p !! i = Some e ∧ passport_id e = passportId.
Proof.
  induction ps as [|q ps IH]; simpl; [done|].
  destruct (findIndex passportId (passports q)) as [j|] eqn:E.
  - intros [= -> ->]. split; [left|].
    apply findIndex_Some in E as (e & ? & ? & _). eauto.
  - intros H. destruct (IH H) as [? ?]. split; [by right|done].
Qed.

Lemma allIds_cons q ps :
  allIds (q :: ps) = (passport_id <$> passports q) ++ allIds ps.
Proof. unfold allIds. by rewrite bind_cons, fmap_app. Qed.

Lemma elem_of_allIds i ps :
  i ∈ allIds ps ↔ ∃ p e, p ∈ ps ∧ e ∈ passports p ∧ passport_id e = i.
Proof.
  unfold allIds. rewrite list_elem_of_fmap. split.
  - intros (e & -> & He). apply list_elem_of_bind in He as (p & He & Hp). eauto.
  - intros (p & e & Hp & He & <-). exists e. split; [done|].
    apply list_elem_of_bind. eauto.
Qed.

Lemma locate_None passportId ps :
  locate passportId ps = None ↔ passportId ∉ allIds ps.
Proof.
  induction ps as [|q ps IH]; simpl.
  - split; [|done]. intros _. unfold allIds. simpl. apply not_elem_of_nil.
  - rewrite allIds_cons, not_elem_of_app, <- IH.
    destruct (findIndex passportId (passports q)) as [j|] eqn:E.
    + split; [done|]. intros [H _]. apply findIndex_None in H. congruence.
    + apply findIndex_None in E. tauto.
Qed.

Lemma locate_is_Some passportId ps :
  passportId ∈ allIds ps → ∃ p i, locate passportId ps = Some (p, i).
Proof.
  intros H. destruct (locate passportId ps) as [[p i]|] eqn:E; [eauto|].
  by apply locate_None in E.
Qed.

(** With unique identifiers the locator answers with the post and the
    index at which a passport is stored. *)
Lemma locate_unique ps p i e :
  NoDup (allIds ps) → p ∈ ps → passports p !! i = Some e →
  locate (passport_id e) ps = Some (p, i).
Proof.
  induction ps as [|q ps IH]; intros Hnd Hp Hi; [by apply elem_of_nil in Hp|].
  rewrite allIds_cons in Hnd. apply NoDup_app in Hnd as (Hq & Hdis & Hps).
  simpl. destruct (decide (p = q)) as [->|Hne].
  - by rewrite (findIndex_NoDup _ _ _ Hq Hi).
  - apply elem_of_cons in Hp as [?|Hp]; [done|].
    assert (findIndex (passport_id e) (passports q) = None) as ->.
    { apply findIndex_None. intros Hin. apply (Hdis _ Hin).
      apply elem_of_allIds. exists p, e. split_and!; [done| |done].
      by eapply list_elem_of_lookup_2. }
    by apply IH.
Qed.

(** ** Deletion *)

Lemma elem_of_deleteOne p s q :
  q ∈ posts (deleteOne p s) ↔ post_id q ≠ post_id p ∧ q ∈ posts s.
Proof. unfold deleteOne. simpl. by rewrite list_elem_of_filter. Qed.

Lemma elem_of_save p' s q :
  q ∈ posts (save p' s) ↔
  (q = p' ∧ post_id p' ∈ post_id <$> posts s)
  ∨ (q ∈ posts s ∧ post_id q ≠ post_id p').
Proof.
  unfold save. simpl. rewrite list_elem_of_fmap. split.
  - intros (q0 & -> & Hq0). case_decide as E.
    + left. split; [done|]. rewrite <- E. apply list_elem_of_fmap. eauto.
    + right. done.
  - intros [[-> Hin]|[Hin Hne]].
    + apply list_elem_of_fmap in Hin as (q0 & E & Hq0).
      exists q0. split; [|done]. by rewrite decide_True.
    + exists q. split; [|done]. by rewrite decide_False.
Qed.

Lemma deleteOne_gone p s : post_id p ∉ post_id <$> posts (deleteOne p s).
Proof.
  rewrite list_elem_of_fmap. intros (q & E & Hq).
  apply elem_of_deleteOne in Hq as [Hne _]. congruence.
Qed.

(** Removing a located passport never leaves an empty post behind. *)
Lemma removePassport_noEmpty u p i s :
  is_Some (passports p !! i) → noEmptyPost s →
  noEmptyPost (removePassport u p i s).
Proof.
  intros [e He] Hs. unfold noEmptyPost, removePassport in *.
  rewrite Forall_forall in *. case_decide as Hlen.
  - intros q Hq. apply elem_of_deleteOne in Hq as [_ Hq]. by apply Hs.
  - intros q Hq. apply elem_of_save in Hq as [[-> _]|[Hq _]]; [|by apply Hs].
    simpl. intros Hnil. apply (f_equal length) in Hnil.
    rewrite length_delete in Hnil by eauto. simpl in Hnil.
    apply lookup_lt_Some in He. lia.
Qed.

Lemma deleteSinglePassport_noEmpty s u passportId :
  noEmptyPost s → noEmptyPost (deleteSinglePassport s u passportId).2.
Proof.
  intros Hs. unfold deleteSinglePassport.
  destruct (locate passportId (posts s)) as [[p i]|] eqn:E; simpl; [|done].
  apply locate_Some in E as (_ & e & He & _).
  apply removePassport_noEmpty; eauto.
Qed.

Lemma batchLoop_noEmpty u ids s ds es :
  noEmptyPost s → noEmptyPost (batchLoop u ids s ds es).1.1.
Proof.
  revert s ds es. induction ids as [|v ids IH]; intros s ds es Hs; simpl; [done|].
  destruct (match v with JStr k => locate k (posts s) | _ => None end)
    as [[p i]|] eqn:E; [|by apply IH].
  destruct v as [| | |k]; try done.
  apply locate_Some in E as (_ & e & He & _). rewrite He.
  apply IH, removePassport_noEmpty; eauto.
Qed.

Lemma deleteMultiplePassports_noEmpty s u passportIds :
  noEmptyPost s → noEmptyPost (deleteMultiplePassports s u passportIds).2.
Proof.
  intros Hs. unfold deleteMultiplePassports.
  destruct passportIds as [[|v ids]|]; [done| |done].
  by apply batchLoop_noEmpty.
Qed.

(** C2: when a post holds exactly one passport, deleting that passport,
    by the single-entry deletion or by a batch deletion naming it, answers
    200 and removes the whole post from the store; and neither deletion
    ever turns a store without empty posts into one that has an empty
    post. *)
Theorem delete_only_passport_deletes_post s u p e :
  uniqueIds s → p ∈ posts s → passports p = [e] →
  let single := deleteSinglePassport s u (passport_id e) in
  let batch := deleteMultiplePassports s u (Some [JStr (passport_id e)]) in
  (single.1 = Json 200 (DeletedData "Passport deleted successfully"
                                    (passport_id e) (post_id p))
   ∧ (post_id p ∉ post_id <$> posts single.2)
   ∧ (noEmptyPost s → noEmptyPost single.2))
  ∧ (batch.1 = Json 200 (BatchData "1 passports deleted successfully" 1
                                   [passport_id e] None)
     ∧ (post_id p ∉ post_id <$> posts batch.2)
     ∧ (noEmptyPost s → noEmptyPost batch.2)).
Proof.
  intros Hu Hp He single batch.
  assert (locate (passport_id e) (posts s) = Some (p, 0%nat)) as Hloc.
  { apply locate_unique; [done..|]. by rewrite He. }
  assert (removePassport u p 0 s = deleteOne p s) as Hrm.
  { unfold removePassport. rewrite He. by rewrite decide_True. }
  split.
  - subst single. split_and!.
    + unfold deleteSinglePassport. by rewrite Hloc.
    + unfold deleteSinglePassport. rewrite Hloc. simpl. rewrite Hrm.
      apply deleteOne_gone.
    + apply deleteSinglePassport_noEmpty.
  - subst batch. split_and!.
    + unfold deleteMultiplePassports. simpl. rewrite Hloc, He. done.
    + unfold deleteMultiplePassports. simpl. rewrite Hloc, He. simpl.
      rewrite Hrm. apply deleteOne_gone.
    + apply deleteMultiplePassports_noEmpty.
Qed.

(** C3: when a post holds two or more passports, deleting one of them by
    its identifier answers 200 and leaves the post in the store, with the
    same identifier and owner; its passports are the original ones without
    the targeted one, the others unchanged and in their original order; the
    other posts are untouched. *)
Theorem delete_one_of_many_keeps_rest s u p i e :
  uniqueIds s → p ∈ posts s → passports p !! i = Some e →
  (2 ≤ length (passports p))%nat →
  let r := deleteSinglePassport s u (passport_id e) in
  r.1 = Json 200 (DeletedData "Passport deleted successfully"
                              (passport_id e) (post_id p))
  ∧ ∃ p', p' ∈ posts r.2
      ∧ post_id p' = post_id p
      ∧ createdBy p' = createdBy p
      ∧ passports p' = take i (passports p) ++ drop (S i) (passports p)
      ∧ (∀ q, q ∈ posts r.2 → post_id q = post_id p → q = p')
      ∧ (∀ q, q ∈ posts s → post_id q ≠ post_id p → q ∈ posts r.2).
Proof.
  intros Hu Hp Hi Hlen r. subst r. unfold deleteSinglePassport.
  rewrite (locate_unique _ _ _ _ Hu Hp Hi). simpl. split; [done|].
  unfold removePassport. rewrite decide_False by lia.
  eexists. split_and!.
  - apply elem_of_save. left. split; [reflexivity|]. simpl.
    apply list_elem_of_fmap. eauto.
  - done.
  - done.
  - simpl. apply delete_take_drop.
  - intros q Hq E. apply elem_of_save in Hq as [[-> _]|[_ Hne]]; done.
  - intros q Hq Hne. apply elem_of_save. right. done.
Qed.

(** ** Batch deletion *)

Lemma uniquePosts_eq s p q :
  uniquePosts s → p ∈ posts s → q ∈ posts s → post_id q = post_id p → q = p.
Proof.
  intros Hnd Hp Hq E.
  apply list_elem_of_lookup in Hp as [j Hj]. apply list_elem_of_lookup in Hq as [k Hk].
  assert (k = j) as ->; [|congruence].
  eapply NoDup_lookup; [exact Hnd| |]; rewrite list_lookup_fmap.
  - by rewrite Hk.
  - rewrite Hj. simpl. by rewrite E.
Qed.

(** Removing a located passport keeps every passport with another
    identifier in the store. *)
Lemma removePassport_keeps u p i e s b :
  uniquePosts s → p ∈ posts s → passports p !! i = Some e →
  b ≠ passport_id e → b ∈ allIds (posts s) →
  b ∈ allIds (posts (removePassport u p i s)).
Proof.
  intros Hnd Hp Hi Hne Hb.
  apply elem_of_allIds in Hb as (q & y & Hq & Hy & <-).
  apply elem_of_allIds. unfold removePassport. case_decide as Hlen.
  - exists q, y. split_and!; [|done..]. apply elem_of_deleteOne. split; [|done].
    intros E. assert (q = p) as -> by eauto using uniquePosts_eq.
    destruct (passports p) as [|z [|? ?]]; simplify_eq/=.
    destruct i; simplify_eq/=. apply list_elem_of_singleton in Hy. congruence.
  - destruct (decide (post_id q = post_id p)) as [E|E].
    + assert (q = p) as -> by eauto using uniquePosts_eq.
      eexists _, y. split_and!; [|  |done].
      * apply elem_of_save. left. split; [reflexivity|]. simpl.
        apply list_elem_of_fmap. eauto.
      * simpl. apply list_elem_of_lookup in Hy as [j Hj].
        destruct (decide (j = i)) as [->|Hji]; [congruence|].
        apply list_elem_of_lookup.
        destruct (decide (j < i)%nat).
        -- exists j. by rewrite list_lookup_delete_lt.
        -- exists (pred j). rewrite list_lookup_delete_ge by lia.
           by replace (S (pred j)) with j by lia.
    + exists q, y. split_and!; [|done..]. apply elem_of_save. by right.
Qed.

(** Removing a passport brings no identifier into the store. *)
Lemma removePassport_no_new u p i s x :
  p ∈ posts s → x ∈ allIds (posts (removePassport u p i s)) →
  x ∈ allIds (posts s).
Proof.
  intros Hp Hx. apply elem_of_allIds in Hx as (q & y & Hq & Hy & <-).
  apply elem_of_allIds. unfold removePassport in Hq. case_decide.
  - apply elem_of_deleteOne in Hq as [_ Hq]. eauto.
  - apply elem_of_save in Hq as [[-> _]|[Hq _]]; [|eauto].
    simpl in Hy. apply list_elem_of_delete_inv in Hy. eauto.
Qed.

Lemma batchLoop_found u k rest s ds es p i e :
  locate k (posts s) = Some (p, i) → passports p !! i = Some e →
  batchLoop u (JStr k :: rest) s ds es
  = batchLoop u rest (removePassport u p i s) (ds ++ [e]) es.
Proof. intros Hl Hi. simpl. by rewrite Hl, Hi. Qed.

Lemma batchLoop_missing u x rest s ds es :
  (∀ k, x = JStr k → k ∉ allIds (posts s)) →
  batchLoop u (x :: rest) s ds es
  = batchLoop u rest s ds (es ++ [(x, "Passport not found")]).
Proof.
  intros Hx. simpl. destruct x as [| | |k]; try done.
  assert (locate k (posts s) = None) as ->; [|done].
  apply locate_None. by apply Hx.
Qed.

(** Every identifier of the request ends in exactly one of the two lists. *)
Lemma batchLoop_lengths u ids s ds es :
  let r := batchLoop u ids s ds es in
  (length r.1.2 + length r.2 = length ds + length es + length ids)%nat.
Proof.
  revert s ds es. induction ids as [|v ids IH]; intros s ds es; simpl; [lia|].
  destruct (match v with JStr k => locate k (posts s) | _ => None end)
    as [[p i]|] eqn:E.
  - destruct v as [| | |k]; try done.
    apply locate_Some in E as (_ & e & He & _). rewrite He.
    specialize (IH (removePassport u p i s) (ds ++ [e]) es). simpl in IH.
    rewrite IH, length_app. simpl. lia.
  - specialize (IH s ds (es ++ [(v, "Passport not found")])). simpl in IH.
    rewrite IH, length_app. simpl. lia.
Qed.

(** C8: with [a] and [b] two distinct identifiers of stored passports and
    [x] a value that identifies none, the batch deletion of [[a; b; x]]
    answers 200 with [a] and [b] as deleted, a count of 2, and one error
    entry, for [x]; and the same holds when [x] comes first, so a miss
    does not stop the loop. *)
Theorem batch_delete_partial_failure s u a b x :
  uniquePosts s → a ≠ b →
  a ∈ allIds (posts s) → b ∈ allIds (posts s) →
  (∀ k, x = JStr k → k ∉ allIds (posts s)) →
  let expected :=
    Json 200 (BatchData "2 passports deleted successfully" 2 [a; b]
                        (Some [(x, "Passport not found")])) in
  (deleteMultiplePassports s u (Some [JStr a; JStr b; x])).1 = expected
  ∧ (deleteMultiplePassports s u (Some [x; JStr a; JStr b])).1 = expected.
Proof.
  intros Hnd Hab Ha Hb Hx expected.
  destruct (locate_is_Some _ _ Ha) as (pa & ia & Hla).
  destruct (locate_Some _ _ _ _ Hla) as (Hpa & ea & Hea & Eea).
  set (s1 := removePassport u pa ia s).
  assert (b ∈ allIds (posts s1)) as Hb1.
  { eapply removePassport_keeps; eauto. congruence. }
  destruct (locate_is_Some _ _ Hb1) as (pb & ib & Hlb).
  destruct (locate_Some _ _ _ _ Hlb) as (Hpb & eb & Heb & Eeb).
  assert (∀ k, x = JStr k → k ∉ allIds (posts (removePassport u pb ib s1))) as Hx2.
  { intros k Hk Hin. apply (Hx k Hk).
    eapply removePassport_no_new; [exact Hpa|].
    eapply removePassport_no_new; [exact Hpb|]. exact Hin. }
  unfold deleteMultiplePassports. split.
  - rewrite (batchLoop_found _ _ _ _ _ _ _ _ _ Hla Hea).
    rewrite (batchLoop_found _ _ _ _ _ _ _ _ _ Hlb Heb).
    rewrite (batchLoop_missing _ _ _ _ _ _ Hx2). simpl.
    unfold batchResponse. simpl. by rewrite Eea, Eeb.
  - rewrite (batchLoop_missing _ _ _ _ _ _ Hx).
    rewrite (batchLoop_found _ _ _ _ _ _ _ _ _ Hla Hea).
    rewrite (batchLoop_found _ _ _ _ _ _ _ _ _ Hlb Heb). simpl.
    unfold batchResponse. simpl. by rewrite Eea, Eeb.
Qed.

(** C9, amended: the batch-deletion response always carries the count and
    the list of the deleted identifiers, the count being the length of
    that list; its list of errors is absent when every supplied identifier
    was deleted, and present and non-empty otherwise, each supplied
    identifier being counted once, as deleted or as an error. *)
Theorem batch_response_shape s u ids :
  ids ≠ [] →
  ∃ msg deleted errors,
    (deleteMultiplePassports s u (Some ids)).1
    = Json 200 (BatchData msg (length deleted) deleted errors)
    ∧ match errors with
      | None => length deleted = length ids
      | Some es => es ≠ [] ∧ (length deleted + length es = length ids)%nat
      end.
Proof.
  intros Hne. destruct ids as [|v ids]; [done|].
  unfold deleteMultiplePassports.
  pose proof (batchLoop_lengths u (v :: ids) s [] []) as Hlen.
  destruct (batchLoop u (v :: ids) s [] []) as [[s' ds] es]. simpl in *.
  unfold batchResponse. eexists _, (passport_id <$> ds), _.
  rewrite length_fmap. split; [reflexivity|].
  case_decide as Hes.
  - split; [|lia]. intros ->. simpl in Hes. lia.
  - destruct es; simpl in *; lia.
Qed.

(** ** Casting and saving *)

Lemma findDoc_cons id q l :
  findDoc id (q :: l) = if decide (post_id q = id) then Some q else findDoc id l.
Proof.
  unfold findDoc. simpl. case_decide; [done|].
  by destruct (list_find _ l) as [[? ?]|].
Qed.

Lemma findDoc_Some id ps p : findDoc id ps = Some p → p ∈ ps ∧ post_id p = id.
Proof.
  induction ps as [|q ps IH]; [done|]. rewrite findDoc_cons. case_decide as E.
  - intros [= ->]. split; [left|done].
  - intros Hf. destruct (IH Hf). split; [by right|done].
Qed.

Lemma findById_Some id ps p :
  findById id ps = inr (Some p) → p ∈ ps ∧ post_id p = id.
Proof.
  unfold findById. destruct (isHex24 id); [|done].
  intros [= H]. by apply findDoc_Some.
Qed.

(** After [save] the document read back is the one that was saved. *)
Lemma findDoc_save i p' s :
  post_id p' = i → i ∈ post_id <$> posts s →
  findDoc i (posts (save p' s)) = Some p'.
Proof.
  intros <-. unfold save. simpl. induction (posts s) as [|q l IH]; simpl.
  - intros Hin. by apply elem_of_nil in Hin.
  - intros Hin. rewrite findDoc_cons.
    destruct (decide (post_id q = post_id p')) as [E|E].
    + by rewrite decide_True.
    + rewrite decide_False by done. apply IH.
      apply elem_of_cons in Hin as [?|?]; [congruence|done].
Qed.

(** What a successful cast says of the object and of the subdocument. *)
Lemma castPassport_Some now o n e n' :
  castPassport now o n = Some (e, n') ↔
  castId o n = Some (passport_id e, n') ∧ castDate now o = Some (postDate e)
  ∧ fields e = fieldsOf o ∧ validPassport (fieldsOf o) = true.
Proof.
  unfold castPassport.
  destruct (castId o n) as [[i m]|]; simpl; [|by split; [|intros [? _]]].
  destruct (castDate now o) as [d|]; simpl; [|by split; [|intros (_ & ? & _)]].
  destruct (validPassport (fieldsOf o)); [|by split; [|intros (_ & _ & _ & ?)]].
  destruct e as [i' d' f']. simpl. split.
  - by intros [= <- <- <- <-].
  - by intros ([= <- <-] & [= <-] & -> & _).
Qed.

Lemma castId_counter o n i n' :
  castId o n = Some (i, n') → (n ≤ n' ≤ S n)%nat.
Proof.
  unfold castId. intros H.
  destruct (o !! "_id") as [[| | |]|]; simplify_option_eq; lia.
Qed.

Lemma castPassport_counter now o n e n' :
  castPassport now o n = Some (e, n') → (n ≤ n' ≤ S n)%nat.
Proof.
  intros H. apply castPassport_Some in H as (H & _). by eapply castId_counter.
Qed.

Lemma lookup_fieldsOf o k :
  fieldsOf o !! k
  = o !! k ≫= λ v, trimmed ← stringPaths !! k; setString trimmed v.
Proof. apply map_lookup_imap. Qed.

(** Strict mode: what is stored depends on the paths of the schema only. *)
Lemma fieldsOf_ext o1 o2 :
  (∀ k, is_Some (stringPaths !! k) → o1 !! k = o2 !! k) →
  fieldsOf o1 = fieldsOf o2.
Proof.
  intros H. apply map_eq. intros k. rewrite !lookup_fieldsOf.
  destruct (stringPaths !! k) as [t|] eqn:E.
  - by rewrite H by eauto.
  - by destruct (o1 !! k), (o2 !! k).
Qed.

Lemma fieldsOf_insert_other k v o :
  stringPaths !! k = None → fieldsOf (<[k := v]> o) = fieldsOf o.
Proof.
  intros Hk. apply fieldsOf_ext. intros k' [t Ht].
  rewrite lookup_insert_ne; [done|]. intros ->. congruence.
Qed.

Lemma fieldsOf_delete_other k (o : jobj) :
  stringPaths !! k = None →
  fieldsOf (VJson <$> delete k o) = fieldsOf (VJson <$> o).
Proof.
  intros Hk. apply fieldsOf_ext. intros k' [t Ht].
  rewrite !lookup_fmap, lookup_delete_ne; [done|]. intros ->. congruence.
Qed.

(** A stored path is a path of the schema. *)
Lemma fieldsOf_strict o k :
  stringPaths !! k = None → fieldsOf o !! k = None.
Proof.
  intros Hk. rewrite lookup_fieldsOf, Hk. by destruct (o !! k).
Qed.

(** A string given at a path of the schema is stored, trimmed when the
    path has the setter. *)
Lemma fieldsOf_string (o : jobj) (k : string) (trimmed : bool) (v : string) :
  stringPaths !! k = Some trimmed → o !! k = Some (JStr v) →
  fieldsOf (VJson <$> o) !! k
  = Some (VJson (JStr (if trimmed then trim v else v))).
Proof.
  intros Hk Hv. by rewrite lookup_fieldsOf, lookup_fmap, Hv, Hk.
Qed.

(** A path that the object does not give is not stored. *)
Lemma fieldsOf_absent (o : jobj) k :
  o !! k = None → fieldsOf (VJson <$> o) !! k = None.
Proof. intros Hv. by rewrite lookup_fieldsOf, lookup_fmap, Hv. Qed.

Lemma castPassports_counter now os n docs n' :
  castPassports now os n = Some (docs, n') → (n ≤ n')%nat.
Proof.
  revert n docs. induction os as [|o os IH]; intros n docs H; simpl in H.
  - simplify_eq. lia.
  - destruct (castPassport now o n) as [[e n1]|] eqn:E1; [|done]. simpl in H.
    destruct (castPassports now os n1) as [[es n2]|] eqn:E2; [|done].
    simplify_eq/=. apply castPassport_counter in E1. apply IH in E2. lia.
Qed.

(** The [k]-th stored passport is the cast of the [k]-th object handed
    over, at a counter value of this request. *)
Lemma castPassports_lookup now os n docs n' k o :
  castPassports now os n = Some (docs, n') → os !! k = Some o →
  ∃ e m m', docs !! k = Some e ∧ castPassport now o m = Some (e, m')
            ∧ (n ≤ m)%nat ∧ (m' ≤ n')%nat.
Proof.
  revert n docs k. induction os as [|o1 os IH]; intros n docs k H Hk; [done|].
  simpl in H.
  destruct (castPassport now o1 n) as [[e n1]|] eqn:E1; [|done]. simpl in H.
  destruct (castPassports now os n1) as [[es n2]|] eqn:E2; [|done].
  simplify_eq/=. destruct k as [|k]; simplify_eq/=.
  - exists e, n, n1. split_and!; [done..|]. by eapply castPassports_counter.
  - destruct (IH _ _ _ E2 Hk) as (e' & m & m' & ? & ? & ? & ?).
    exists e', m, m'. split_and!; [done..| |done].
    apply castPassport_counter in E1. lia.
Qed.

Lemma castPassports_length now os n docs n' :
  castPassports now os n = Some (docs, n') → length docs = length os.
Proof.
  revert n docs. induction os as [|o os IH]; intros n docs H; simpl in H.
  - by simplify_eq.
  - destruct (castPassport now o n) as [[e n1]|] eqn:E1; [|done]. simpl in H.
    destruct (castPassports now os n1) as [[es n2]|] eqn:E2; [|done].
    simplify_eq/=. f_equal. eauto.
Qed.

(** ** The lookup object of the post-level update *)

Lemma existingPassportsMap_lookup p e :
  NoDup (passport_id <$> passports p) → e ∈ passports p →
  existingPassportsMap p !! passport_id e = Some (passport_id e, postDate e).
Proof.
  unfold existingPassportsMap.
  induction (passports p) as [|x l IH] using rev_ind; intros Hnd He.
  - by apply elem_of_nil in He.
  - rewrite foldl_app. simpl. rewrite fmap_app in Hnd.
    apply NoDup_app in Hnd as (Hl & Hdis & _).
    apply elem_of_app in He as [He|He].
    + rewrite lookup_insert_ne; [by apply IH|].
      intros E. apply (Hdis (passport_id e)).
      * apply list_elem_of_fmap. eauto.
      * simpl. rewrite E. apply list_elem_of_singleton. done.
    + apply list_elem_of_singleton in He as ->. by rewrite lookup_insert_eq.
Qed.

Lemma existingFor_carries p o e :
  NoDup (passport_id <$> passports p) → e ∈ passports p →
  carries o (passport_id e) →
  existingFor (existingPassportsMap p) o = Own (passport_id e, postDate e).
Proof.
  intros Hnd He (v & Hv & Ht & Hk). unfold existingFor, getProperty.
  rewrite Hv, Ht, Hk. by rewrite existingPassportsMap_lookup.
Qed.

(** A supplied entry that matches a stored one is stored again, when the
    schema accepts it, under the stored identifier and with the stored
    [postDate]. *)
Lemma castPassport_own m currentIST now o n i d e' n' :
  existingFor m o = Own (i, d) →
  castPassport now (processPassport m currentIST o) n = Some (e', n') →
  passport_id e' = i ∧ postDate e' = d ∧ n' = n
  ∧ fields e' = fieldsOf (VJson <$> o).
Proof.
  intros H Hc. unfold processPassport in Hc. rewrite H in Hc.
  apply castPassport_Some in Hc as (Hi & Hd & Hf & _).
  unfold castId in Hi. unfold castDate in Hd.
  rewrite (lookup_insert_ne _ "postDate" "_id") in Hi by done.
  rewrite lookup_insert_eq in Hi, Hd. simpl in Hi. simplify_eq.
  split_and!; [done..|]. rewrite Hf.
  rewrite !fieldsOf_insert_other by done. by apply fieldsOf_delete_other.
Qed.

(** ** Updates keep [postDate] *)

Lemma uniqueIds_within ps p :
  NoDup (allIds ps) → p ∈ ps → NoDup (passport_id <$> passports p).
Proof.
  induction ps as [|q ps IH]; intros Hnd Hp; [by apply elem_of_nil in Hp|].
  rewrite allIds_cons in Hnd. apply NoDup_app in Hnd as (Hq & _ & Hps).
  apply elem_of_cons in Hp as [->|Hp]; eauto.
Qed.

(** The object built by the entry-level update casts, when the schema
    accepts it, to a passport with the original [postDate]; its identifier
    is the original one unless the payload has an [_id], and its other
    paths are those of the payload. *)
Lemma castPassport_updated now (body : jobj) i d n e' n' :
  castPassport now (<["postDate" := VDate d]>
                      ((VJson <$> body) ∪ {["_id" := VOid i]})) n = Some (e', n') →
  postDate e' = d ∧ n' = n
  ∧ fields e' = fieldsOf (VJson <$> body)
  ∧ validPassport (fieldsOf (VJson <$> body)) = true
  ∧ match body !! "_id" with
    | None => passport_id e' = i
    | Some v => ∃ k, v = JStr k ∧ isHex24 k = true ∧ passport_id e' = toLower k
    end.
Proof.
  intros Hc. apply castPassport_Some in Hc as (Hi & Hd & Hf & Hv).
  assert (fieldsOf (<["postDate" := VDate d]>
                      ((VJson <$> body) ∪ {["_id" := VOid i]}))
          = fieldsOf (VJson <$> body)) as Hfields.
  { rewrite fieldsOf_insert_other by done. apply fieldsOf_ext.
    intros k [t Ht]. rewrite lookup_union, lookup_singleton_ne.
    - by destruct ((VJson <$> body) !! k).
    - intros <-. done. }
  rewrite Hfields in Hf, Hv.
  unfold castId in Hi. unfold castDate in Hd.
  rewrite (lookup_insert_ne _ "postDate" "_id") in Hi by done.
  rewrite lookup_insert_eq in Hd.
  rewrite lookup_union, lookup_fmap, lookup_singleton_eq in Hi.
  injection Hd as <-.
  destruct (body !! "_id") as [v|]; simpl in Hi.
  - destruct v as [| | |k]; simpl in Hi; try done.
    destruct (isHex24 k) eqn:Hhex; simpl in Hi; [|done].
    injection Hi as <- <-. split_and!; eauto.
  - by injection Hi as <- <-.
Qed.

(** An update keeps the [postDate] of a stored passport when the request
    names it by its identifier as the store renders it. For the post-level
    update, a supplied entry whose [_id] is the rendering of the identifier
    of a stored passport is stored, at its place in the list, under that
    identifier and with the stored [postDate], whatever the payload says;
    for the entry-level update, the passport at the addressed position
    keeps its [postDate]. In both cases a request that is turned down
    leaves the store as it was. *)
Theorem update_preserves_postDate s u now p i e :
  uniqueIds s → p ∈ posts s → passports p !! i = Some e →
  (∀ id ps k o,
     findById id (posts s) = inr (Some p) →
     ps !! k = Some o → carries o (passport_id e) →
     let s' := (updatePassportPost s u now id (Some ps)).2 in
     s' = s
     ∨ ∃ p' e', findDoc (post_id p) (posts s') = Some p'
         ∧ passports p' !! k = Some e'
         ∧ passport_id e' = passport_id e
         ∧ postDate e' = postDate e)
  ∧ (∀ body,
       let s' := (updateSinglePassport s u now (passport_id e) body).2 in
       s' = s
       ∨ ∃ p' e', findDoc (post_id p) (posts s') = Some p'
           ∧ passports p' !! i = Some e'
           ∧ postDate e' = postDate e).
Proof.
  intros Hu Hp Hi.
  assert (post_id p ∈ post_id <$> posts s) as Hin
    by (apply list_elem_of_fmap; eauto).
  split.
  - intros id ps k o Hf Hk Hc s'. subst s'. unfold updatePassportPost.
    rewrite Hf. case_decide; [by left|].
    destruct ps as [|o1 ps]; [done|].
    destruct (castPassports _ _ _) as [[docs n]|] eqn:Hcast; [|by left].
    pose proof (findDoc_save (post_id p)
                  (Post (post_id p) docs (createdBy p) (Some (user_id u)))
                  (Db (posts s) (users s) n) eq_refl Hin) as Hsave.
    rewrite Hsave. simpl. right.
    assert ((processPassport (existingPassportsMap p) (getCurrentIST now)
               <$> o1 :: ps) !! k
            = Some (processPassport (existingPassportsMap p) (getCurrentIST now) o))
      as Hk' by (by rewrite list_lookup_fmap, Hk).
    destruct (castPassports_lookup _ _ _ _ _ _ _ Hcast Hk')
      as (e' & m & m' & He' & Hc' & _).
    assert (existingFor (existingPassportsMap p) o
            = Own (passport_id e, postDate e)) as Hown.
    { apply existingFor_carries; [|by eapply list_elem_of_lookup_2|done].
      by eapply uniqueIds_within. }
    destruct (castPassport_own _ _ _ _ _ _ _ _ _ Hown Hc') as (Hid & Hd & _).
    exists (Post (post_id p) docs (createdBy p) (Some (user_id u))), e'.
    split_and!; [exact Hsave|done..].
  - intros body s'. subst s'. unfold updateSinglePassport.
    rewrite (locate_unique _ _ _ _ Hu Hp Hi). case_decide; [by left|].
    rewrite Hi. destruct (castPassport _ _ _) as [[doc n]|] eqn:Hcast; [|by left].
    pose proof (findDoc_save (post_id p)
                  (Post (post_id p) (<[i := doc]> (passports p)) (createdBy p)
                        (Some (user_id u)))
                  (Db (posts s) (users s) n) eq_refl Hin) as Hsave.
    rewrite Hsave. simpl. right.
    apply castPassport_updated in Hcast as [Hd _].
    exists (Post (post_id p) (<[i := doc]> (passports p)) (createdBy p)
                 (Some (user_id u))), doc.
    split_and!; [exact Hsave| |done].
    simpl. apply list_lookup_insert_eq. by eapply lookup_lt_Some.
Qed.

(** ** Who may write *)

(** C4, amended: the post-level update and the entry-level update answer
    403 and leave the store unchanged whenever the targeted post (or the
    post holding the targeted passport) belongs to someone else and the
    caller is no admin; the three deletions never answer 403. *)
Theorem updates_reject_strangers s u now p :
  notOwnerNorAdmin (createdBy p) u →
  (∀ id body,
     findById id (posts s) = inr (Some p) →
     updatePassportPost s u now id body
     = (Error 403 (Text "Not authorized to update this post"), s))
  ∧ (∀ passportId i body,
       locate passportId (posts s) = Some (p, i) →
       updateSinglePassport s u now passportId body
       = (Error 403 (Text "Not authorized to update this passport"), s))
  ∧ (∀ id ids m,
       (deletePassportPost s u id).1 ≠ Error 403 m
       ∧ (deleteSinglePassport s u id).1 ≠ Error 403 m
       ∧ (deleteMultiplePassports s u ids).1 ≠ Error 403 m).
Proof.
  intros Hno. split_and!.
  - intros id body Hf. unfold updatePassportPost. rewrite Hf.
    by rewrite decide_True.
  - intros passportId i body Hl. unfold updateSinglePassport. rewrite Hl.
    by rewrite decide_True.
  - intros id ids m. split_and!.
    + unfold deletePassportPost. by destruct (findById _ _) as [?|[?|]].
    + unfold deleteSinglePassport. by destruct (locate _ _) as [[? ?]|].
    + unfold deleteMultiplePassports. by destruct ids as [[|? ?]|].
Qed.

(** ** New entries of the post-level update *)

Lemma existingPassportsMap_Some p k x :
  existingPassportsMap p !! k = Some x →
  ∃ e, e ∈ passports p ∧ passport_id e = k.
Proof.
  unfold existingPassportsMap.
  induction (passports p) as [|y l IH] using rev_ind; [done|].
  rewrite foldl_app. simpl. intros H.
  destruct (decide (passport_id y = k)) as [E|E].
  - exists y. split; [|done]. apply elem_of_app. right. by left.
  - rewrite lookup_insert_ne in H by done.
    destruct (IH H) as (e & He & <-). exists e. split; [|done].
    apply elem_of_app. by left.
Qed.

Lemma falsy_key v :
  truthy v = false → propertyKey v ∉ objectPrototypeKeys.
Proof.
  destruct v as [|[|]|n|k]; simpl; try done.
  - intros _. not_elem_by_compute.
  - intros _. not_elem_by_compute.
  - intros H. apply negb_false_iff, Z.eqb_eq in H as ->. not_elem_by_compute.
  - intros H. apply negb_false_iff, String.eqb_eq in H as ->. not_elem_by_compute.
Qed.

(** The three outcomes of the test that opens the callback. *)
Lemma existingFor_inv m o :
  match existingFor m o with
  | Own x =>
      ∃ v, o !! "_id" = Some v ∧ truthy v = true ∧ m !! propertyKey v = Some x
  | Inherited =>
      ∃ v, o !! "_id" = Some v ∧ truthy v = true
           ∧ propertyKey v ∈ objectPrototypeKeys
  | Missing =>
      o !! "_id" = None
      ∨ ∃ v, o !! "_id" = Some v ∧ propertyKey v ∉ objectPrototypeKeys
  end.
Proof.
  unfold existingFor, getProperty.
  destruct (o !! "_id") as [v|]; [|by left].
  destruct (truthy v) eqn:Ht; [|right; eauto using falsy_key].
  destruct (m !! propertyKey v) as [x|] eqn:Hm; [eauto|].
  case_decide; [eauto|right; eauto].
Qed.

(** The cast of an entry built by the branch for new passports: the
    identifier is generated when the entry has no [_id], and is otherwise
    the ObjectId that the [_id] of the entry denotes. *)
Lemma castPassport_new now t (o : jobj) n e' n' :
  castPassport now (<["postDate" := VDate t]> (VJson <$> o)) n = Some (e', n') →
  postDate e' = t
  ∧ match o !! "_id" with
    | None => passport_id e' = genObjectId n ∧ n' = S n
    | Some v =>
        (∃ k, v = JStr k ∧ isHex24 k = true ∧ passport_id e' = toLower k)
        ∧ n' = n
    end.
Proof.
  intros Hc. apply castPassport_Some in Hc as (Hi & Hd & _).
  unfold castId in Hi. unfold castDate in Hd.
  rewrite (lookup_insert_ne _ "postDate" "_id") in Hi by done.
  rewrite lookup_insert_eq in Hd. rewrite lookup_fmap in Hi.
  injection Hd as <-. split; [done|].
  destruct (o !! "_id") as [v|]; simpl in Hi.
  - destruct v as [| | |k]; simpl in Hi; try done.
    destruct (isHex24 k) eqn:Hhex; simpl in Hi; [|done].
    injection Hi as <- <-. eauto.
  - by injection Hi as <- <-.
Qed.

(** The cast of an entry built after an inherited property was taken for a
    stored passport: both paths fall back on their defaults. *)
Lemma castPassport_inherited now (o : jobj) n e' n' :
  castPassport now (<["postDate" := VUndef]>
                      (<["_id" := VUndef]> (VJson <$> delete "postDate" o))) n
  = Some (e', n') →
  passport_id e' = genObjectId n ∧ postDate e' = now ∧ n' = S n.
Proof.
  intros Hc. apply castPassport_Some in Hc as (Hi & Hd & _).
  unfold castId in Hi. unfold castDate in Hd.
  rewrite (lookup_insert_ne _ "postDate" "_id") in Hi by done.
  rewrite lookup_insert_eq in Hi, Hd. by simplify_eq.
Qed.

(** A well-formed identifier names no inherited property. *)
Lemma isHex24_not_inherited i :
  isHex24 i = true → i ∉ objectPrototypeKeys.
Proof.
  intros Hhex Hin. unfold objectPrototypeKeys in Hin.
  repeat (apply elem_of_cons in Hin as [->|Hin]; [by vm_compute in Hhex|]).
  by apply elem_of_nil in Hin.
Qed.

(** C6, amended: in a post-level update that succeeds, a supplied entry
    that names no stored passport of the post is stored at its place in the
    list. When the entry has no [_id], it is stored as a new passport: the
    store generates its identifier, and its [postDate] is the IST reading
    of the request. When the entry has a well-formed [_id] (a string of 24
    hexadecimal digits) that names no stored passport of the post with its
    digits in lower case either, it is stored as a new passport under the
    ObjectId that this [_id] denotes, the same digits in lower case, with
    the IST reading of the request as [postDate]: the identifier of the
    caller is kept. *)
Theorem new_entry_identifier s u now id ps p k o p' s' :
  findById id (posts s) = inr (Some p) →
  ps !! k = Some o →
  (∀ e, e ∈ passports p → ¬ carries o (passport_id e)) →
  updatePassportPost s u now id (Some ps) = (Json 200 (PostData p'), s') →
  ∃ e', passports p' !! k = Some e'
    ∧ (o !! "_id" = None →
       generatedIn s s' (passport_id e') ∧ postDate e' = getCurrentIST now)
    ∧ (∀ i, o !! "_id" = Some (JStr i) → isHex24 i = true →
       (toLower i ∉ passport_id <$> passports p) →
       passport_id e' = toLower i
       ∧ (passport_id e' ∉ passport_id <$> passports p)
       ∧ postDate e' = getCurrentIST now).
Proof.
  intros Hf Hk Hno. unfold updatePassportPost. rewrite Hf.
  case_decide; [done|]. destruct ps as [|o1 ps]; [done|].
  destruct (castPassports _ _ _) as [[docs n]|] eqn:Hcast; [|done].
  destruct (findById_Some _ _ _ Hf) as [Hp _].
  assert (post_id p ∈ post_id <$> posts s) as Hin
    by (apply list_elem_of_fmap; eauto).
  rewrite (findDoc_save (post_id p)
             (Post (post_id p) docs (createdBy p) (Some (user_id u)))
             (Db (posts s) (users s) n) eq_refl Hin).
  intros [= <- <-]. simpl.
  assert ((processPassport (existingPassportsMap p) (getCurrentIST now)
             <$> o1 :: ps) !! k
          = Some (processPassport (existingPassportsMap p) (getCurrentIST now) o))
    as Hk' by (by rewrite list_lookup_fmap, Hk).
  destruct (castPassports_lookup _ _ _ _ _ _ _ Hcast Hk')
    as (e' & m & m' & He' & Hc' & Hm & Hm').
  exists e'. split; [done|].
  pose proof (existingFor_inv (existingPassportsMap p) o) as Hinv.
  unfold processPassport in Hc'.
  destruct (existingFor (existingPassportsMap p) o) as [[i d]| |].
  - destruct Hinv as (v & Hv & Ht & Hx).
    apply existingPassportsMap_Some in Hx as (e & He & Hid).
    destruct (Hno e He). by exists v.
  - destruct Hinv as (v & Hv & Ht & Hkey). split; [by rewrite Hv|].
    intros i Hi Hhex _. rewrite Hv in Hi. injection Hi as ->.
    by apply isHex24_not_inherited in Hhex.
  - apply castPassport_new in Hc' as [Hd Hid]. split.
    + intros Hv. rewrite Hv in Hid. destruct Hid as [-> ->].
      split; [|done]. exists m. simpl. split; [lia|done].
    + intros i Hi _ Hnew. rewrite Hi in Hid.
      destruct Hid as [(k' & [= <-] & _ & ->) _]. done.
Qed.

(** In a post-level update that succeeds, a supplied entry for which the
    opening test finds nothing is stored with the IST reading of the
    request as [postDate]. *)
Lemma new_entry_postDate s u now id ps p k o p' s' :
  findById id (posts s) = inr (Some p) →
  ps !! k = Some o →
  existingFor (existingPassportsMap p) o = Missing →
  updatePassportPost s u now id (Some ps) = (Json 200 (PostData p'), s') →
  ∃ e', passports p' !! k = Some e' ∧ postDate e' = getCurrentIST now.
Proof.
  intros Hf Hk Hmiss. unfold updatePassportPost. rewrite Hf.
  case_decide; [done|]. destruct ps as [|o1 ps]; [done|].
  destruct (castPassports _ _ _) as [[docs n]|] eqn:Hcast; [|done].
  destruct (findById_Some _ _ _ Hf) as [Hp _].
  assert (post_id p ∈ post_id <$> posts s) as Hin
    by (apply list_elem_of_fmap; eauto).
  rewrite (findDoc_save (post_id p)
             (Post (post_id p) docs (createdBy p) (Some (user_id u)))
             (Db (posts s) (users s) n) eq_refl Hin).
  intros [= <- <-]. simpl.
  assert ((processPassport (existingPassportsMap p) (getCurrentIST now)
             <$> o1 :: ps) !! k
          = Some (processPassport (existingPassportsMap p) (getCurrentIST now) o))
    as Hk' by (by rewrite list_lookup_fmap, Hk).
  destruct (castPassports_lookup _ _ _ _ _ _ _ Hcast Hk')
    as (e' & m & m' & He' & Hc' & _).
  exists e'. split; [done|].
  unfold processPassport in Hc'. rewrite Hmiss in Hc'.
  by apply castPassport_new in Hc' as [? _].
Qed.

(** In a post-level update that succeeds, a supplied entry that names a
    stored passport of the post by other digits than the store renders (the
    same digits, some of them in upper case) is not found in the lookup
    object: it is stored under the identifier of that passport with the IST
    reading of the request as [postDate], the stored [postDate] being
    lost. *)
Lemma respelled_id_entry_is_new s u now id ps p k o i e p' s' :
  findById id (posts s) = inr (Some p) →
  ps !! k = Some o →
  e ∈ passports p →
  o !! "_id" = Some (JStr i) → isHex24 i = true →
  toLower i = passport_id e → (i ∉ passport_id <$> passports p) →
  updatePassportPost s u now id (Some ps) = (Json 200 (PostData p'), s') →
  ∃ e', passports p' !! k = Some e'
    ∧ passport_id e' = passport_id e
    ∧ postDate e' = getCurrentIST now.
Proof.
  intros Hf Hk He Hi Hhex Hlow Hno Hupd.
  assert (existingFor (existingPassportsMap p) o = Missing) as Hmiss.
  { unfold existingFor, getProperty. rewrite Hi. simpl.
    assert (String.eqb i "" = false) as ->
      by (destruct i; [by vm_compute in Hhex|done]).
    simpl. destruct (existingPassportsMap p !! i) as [x|] eqn:Hm.
    - apply existingPassportsMap_Some in Hm as (y & Hy & Ey). destruct Hno.
      apply list_elem_of_fmap. eauto.
    - rewrite decide_False; [done|]. by apply isHex24_not_inherited. }
  revert Hupd. unfold updatePassportPost. rewrite Hf.
  case_decide; [done|]. destruct ps as [|o1 ps]; [done|].
  destruct (castPassports _ _ _) as [[docs n]|] eqn:Hcast; [|done].
  destruct (findById_Some _ _ _ Hf) as [Hp _].
  assert (post_id p ∈ post_id <$> posts s) as Hin
    by (apply list_elem_of_fmap; eauto).
  rewrite (findDoc_save (post_id p)
             (Post (post_id p) docs (createdBy p) (Some (user_id u)))
             (Db (posts s) (users s) n) eq_refl Hin).
  intros [= <- <-]. simpl.
  assert ((processPassport (existingPassportsMap p) (getCurrentIST now)
             <$> o1 :: ps) !! k
          = Some (processPassport (existingPassportsMap p) (getCurrentIST now) o))
    as Hk' by (by rewrite list_lookup_fmap, Hk).
  destruct (castPassports_lookup _ _ _ _ _ _ _ Hcast Hk')
    as (e' & m & m' & He' & Hc' & _).
  exists e'. split; [done|].
  unfold processPassport in Hc'. rewrite Hmiss in Hc'.
  apply castPassport_new in Hc' as [Hd Hid]. rewrite Hi in Hid.
  destruct Hid as [(k' & [= <-] & _ & ->) _]. done.
Qed.

(** Every passport of a new post takes the IST reading of the request as
    [postDate], whatever the payload says. *)
Lemma castPassports_postDate now t (ps : list jobj) n docs n' :
  castPassports now ((λ o : jobj, <["postDate" := VDate t]> (VJson <$> o)) <$> ps) n
  = Some (docs, n') →
  Forall (λ e, postDate e = t) docs.
Proof.
  revert n docs. induction ps as [|o ps IH]; intros n docs H; simpl in H.
  - simplify_eq. constructor.
  - destruct (castPassport _ _ _) as [[e n1]|] eqn:E1; [|done]. simpl in H.
    destruct (castPassports _ _ n1) as [[es n2]|] eqn:E2; [|done].
    simplify_eq/=. constructor; [|eauto].
    by apply castPassport_new in E1 as [? _].
Qed.

Lemma createPassportPost_postDate s u now ps p s' :
  createPassportPost s u now ps = (Json 201 (PostData p), s') →
  p ∈ posts s' ∧ Forall (λ e, postDate e = getCurrentIST now) (passports p).
Proof.
  unfold createPassportPost. destruct ps as [[|o ps]|]; try done.
  destruct (castPassports _ _ _) as [[docs n]|] eqn:Hcast; [|done].
  intros [= <- <-]. simpl. split.
  - apply elem_of_app. right. by left.
  - by eapply castPassports_postDate.
Qed.

(** ** No handler leaves an empty post *)

Lemma save_noEmpty p' s :
  passports p' ≠ [] → noEmptyPost s → noEmptyPost (save p' s).
Proof.
  unfold noEmptyPost. rewrite !Forall_forall. intros Hp' Hs q Hq.
  apply elem_of_save in Hq as [[-> _]|[Hq _]]; eauto.
Qed.

Lemma createPassportPost_noEmpty s u now ps :
  noEmptyPost s → noEmptyPost (createPassportPost s u now ps).2.
Proof.
  intros Hs. unfold createPassportPost. destruct ps as [[|o ps]|]; try done.
  destruct (castPassports _ _ _) as [[docs n]|] eqn:Hcast; [|done]. simpl.
  unfold noEmptyPost in *. simpl. apply Forall_app. split; [done|].
  constructor; [|constructor]. simpl. intros ->.
  apply castPassports_length in Hcast. done.
Qed.

Lemma updatePassportPost_noEmpty s u now id ps :
  noEmptyPost s → noEmptyPost (updatePassportPost s u now id ps).2.
Proof.
  intros Hs. unfold updatePassportPost.
  destruct (findById id (posts s)) as [?|[p|]]; try done.
  case_decide; [done|]. destruct ps as [[|o ps]|]; try done.
  destruct (castPassports _ _ _) as [[docs n]|] eqn:Hcast; [|done].
  assert (noEmptyPost (save (Post (post_id p) docs (createdBy p) (Some (user_id u)))
                            (Db (posts s) (users s) n))) as Hs'.
  { apply save_noEmpty; [|done]. simpl. intros ->.
    apply castPassports_length in Hcast. done. }
  by destruct (findDoc _ _).
Qed.

Lemma updateSinglePassport_noEmpty s u now passportId body :
  noEmptyPost s → noEmptyPost (updateSinglePassport s u now passportId body).2.
Proof.
  intros Hs. unfold updateSinglePassport.
  destruct (locate passportId (posts s)) as [[p i]|] eqn:Hl; [|done].
  case_decide; [done|].
  destruct (passports p !! i) as [e|] eqn:Hi; [|done].
  destruct (castPassport _ _ _) as [[doc n]|]; [|done].
  assert (noEmptyPost (save (Post (post_id p) (<[i := doc]> (passports p))
                                  (createdBy p) (Some (user_id u)))
                            (Db (posts s) (users s) n))) as Hs'.
  { apply save_noEmpty; [|done]. simpl. intros Hnil.
    apply (f_equal length) in Hnil. rewrite length_insert in Hnil.
    apply lookup_lt_Some in Hi. simpl in Hnil. lia. }
  by destruct (findDoc _ _).
Qed.

Lemma deletePassportPost_noEmpty s u id :
  noEmptyPost s → noEmptyPost (deletePassportPost s u id).2.
Proof.
  intros Hs. unfold deletePassportPost.
  destruct (findById id (posts s)) as [?|[p|]]; try done. simpl.
  unfold noEmptyPost in *. rewrite Forall_forall in *. intros q Hq.
  apply elem_of_deleteOne in Hq as [_ Hq]. by apply Hs.
Qed.

(** ** Reading one passport *)

(** The search of the read is the entry locator. *)
Lemma locateFind_locate passportId ps p e :
  locateFind passportId ps = Some (p, e) ↔
  ∃ i, locate passportId ps = Some (p, i) ∧ passports p !! i = Some e.
Proof.
  induction ps as [|q ps IH]; simpl.
  - split; [done|]. by intros (? & ? & _).
  - unfold findIndex.
    destruct (list_find _ (passports q)) as [[j y]|] eqn:E; simpl.
    + apply list_find_Some in E as (Hj & _ & _). split.
      * intros [= -> ->]. eauto.
      * intros (i & [= -> ->] & Hi). congruence.
    + exact IH.
Qed.

Lemma getSinglePassport_forbidden s u passportId p e :
  locateFind passportId (posts s) = Some (p, e) →
  createdBy p ∈ users s → notOwnerNorAdmin (createdBy p) u →
  getSinglePassport s u passportId
  = Error 403 (Text "Not authorized to access this passport").
Proof.
  intros Hl Hin Hno. unfold getSinglePassport, populate. rewrite Hl.
  rewrite decide_True by done. by rewrite decide_True.
Qed.

(** A caller who is neither the owner nor an admin is never sent the
    passport. *)
Lemma getSinglePassport_no_content s u passportId p e c b :
  locateFind passportId (posts s) = Some (p, e) →
  notOwnerNorAdmin (createdBy p) u →
  getSinglePassport s u passportId ≠ Json c b.
Proof.
  intros Hl Hno. unfold getSinglePassport, populate. rewrite Hl.
  case_decide; [|done]. by rewrite decide_True.
Qed.

(** The entry-level read never sends the passport to a caller who is
    neither the owner of the post that holds it nor an admin, and answers
    403 to such a caller when the account that owns the post is there for
    [populate] to resolve. *)
Theorem read_rejects_strangers s u p i e :
  uniqueIds s → p ∈ posts s → passports p !! i = Some e →
  notOwnerNorAdmin (createdBy p) u →
  (∀ c b, getSinglePassport s u (passport_id e) ≠ Json c b)
  ∧ (createdBy p ∈ users s →
     getSinglePassport s u (passport_id e)
     = Error 403 (Text "Not authorized to access this passport")).
Proof.
  intros Hu Hp Hi Hno.
  assert (locateFind (passport_id e) (posts s) = Some (p, e)) as Hl.
  { apply locateFind_locate. exists i. split; [|done]. by apply locate_unique. }
  split.
  - intros c b. by eapply getSinglePassport_no_content.
  - intros Hin. by eapply getSinglePassport_forbidden.
Qed.


(** * Examples on the small store *)

Lemma delete_only_passport_deletes_post_witness :
  uniqueIds sample_db ∧ post2 ∈ posts sample_db ∧ passports post2 = [passportC]
  ∧ (post_id post2 ∉ post_id <$>
       posts (deleteSinglePassport sample_db bob (passport_id passportC)).2)
  ∧ (post_id post2 ∉ post_id <$>
       posts (deleteMultiplePassports sample_db bob
                (Some [JStr (passport_id passportC)])).2).
Proof.
  assert (uniqueIds sample_db) as H1 by by_compute.
  assert (post2 ∈ posts sample_db) as H2 by by_compute.
  assert (passports post2 = [passportC]) as H3 by reflexivity.
  destruct (delete_only_passport_deletes_post sample_db bob post2 passportC
              H1 H2 H3) as [(_ & Hs & _) (_ & Hb & _)].
  split_and!; assumption.
Defined.

Lemma delete_one_of_many_keeps_rest_witness :
  uniqueIds sample_db ∧ post1 ∈ posts sample_db
  ∧ passports post1 !! 0%nat = Some passportA
  ∧ (2 ≤ length (passports post1))%nat
  ∧ ∃ p', p' ∈ posts (deleteSinglePassport sample_db alice
                        (passport_id passportA)).2
      ∧ post_id p' = post_id post1
      ∧ passports p' = [passportB].
Proof.
  assert (uniqueIds sample_db) as H1 by by_compute.
  assert (post1 ∈ posts sample_db) as H2 by by_compute.
  assert (passports post1 !! 0%nat = Some passportA) as H3 by reflexivity.
  assert (2 ≤ length (passports post1))%nat as H4 by (simpl; lia).
  destruct (delete_one_of_many_keeps_rest sample_db alice post1 0 passportA
              H1 H2 H3 H4) as (_ & p' & Hin & Hid & _ & Hps & _).
  split_and!; [assumption..|]. exists p'. split_and!; assumption.
Defined.

Lemma batch_delete_partial_failure_witness :
  uniquePosts sample_db
  ∧ passport_id passportA ≠ passport_id passportC
  ∧ passport_id passportA ∈ allIds (posts sample_db)
  ∧ passport_id passportC ∈ allIds (posts sample_db)
  ∧ ("65a1c3e5f7a9b1c3e5f7a9ff" ∉ allIds (posts sample_db))
  ∧ (deleteMultiplePassports sample_db alice
       (Some [JStr (passport_id passportA); JStr (passport_id passportC);
              JStr "65a1c3e5f7a9b1c3e5f7a9ff"])).1
    = Json 200 (BatchData "2 passports deleted successfully" 2
                  [passport_id passportA; passport_id passportC]
                  (Some [(JStr "65a1c3e5f7a9b1c3e5f7a9ff", "Passport not found")])).
Proof.
  assert (uniquePosts sample_db) as H1 by by_compute.
  assert (passport_id passportA ≠ passport_id passportC) as H2 by by_compute.
  assert (passport_id passportA ∈ allIds (posts sample_db)) as H3 by by_compute.
  assert (passport_id passportC ∈ allIds (posts sample_db)) as H4 by by_compute.
  assert ("65a1c3e5f7a9b1c3e5f7a9ff" ∉ allIds (posts sample_db)) as H5
    by by_compute.
  assert (∀ k, JStr "65a1c3e5f7a9b1c3e5f7a9ff" = JStr k →
               k ∉ allIds (posts sample_db)) as H5'
    by (intros k [= <-]; exact H5).
  destruct (batch_delete_partial_failure sample_db alice _ _ _ H1 H2 H3 H4 H5')
    as [Hr _].
  split_and!; assumption.
Defined.

Lemma batch_response_shape_witness :
  [JStr (passport_id passportA); JNum 7] ≠ []
  ∧ ∃ msg deleted errors,
      (deleteMultiplePassports sample_db bob
         (Some [JStr (passport_id passportA); JNum 7])).1
      = Json 200 (BatchData msg (length deleted) deleted errors)
      ∧ match errors with
        | None => length deleted = 2%nat
        | Some es => es ≠ [] ∧ (length deleted + length es = 2)%nat
        end.
Proof.
  assert ([JStr (passport_id passportA); JNum 7] ≠ []) as H1 by discriminate.
  split; [assumption|].
  exact (batch_response_shape sample_db bob _ H1).
Defined.

Lemma update_preserves_postDate_witness :
  uniqueIds sample_db ∧ post1 ∈ posts sample_db
  ∧ passports post1 !! 0%nat = Some passportA
  ∧ findById (post_id post1) (posts sample_db) = inr (Some post1)
  ∧ carries entryForA (passport_id passportA)
  ∧ (let s' := (updatePassportPost sample_db alice sample_now (post_id post1)
                  (Some [entryNoId; entryForA])).2 in
     s' = sample_db
     ∨ ∃ p' e', findDoc (post_id post1) (posts s') = Some p'
         ∧ passports p' !! 1%nat = Some e'
         ∧ passport_id e' = passport_id passportA
         ∧ postDate e' = postDate passportA)
  ∧ (let s' := (updateSinglePassport sample_db alice sample_now
                  (passport_id passportA) entryForA).2 in
     s' = sample_db
     ∨ ∃ p' e', findDoc (post_id post1) (posts s') = Some p'
         ∧ passports p' !! 0%nat = Some e'
         ∧ postDate e' = postDate passportA)
  ∧ succeeded (updatePassportPost sample_db alice sample_now (post_id post1)
                 (Some [entryNoId; entryForA])).1 = true
  ∧ succeeded (updateSinglePassport sample_db alice sample_now
                 (passport_id passportA) entryForA).1 = true.
Proof.
  assert (uniqueIds sample_db) as H1 by by_compute.
  assert (post1 ∈ posts sample_db) as H2 by by_compute.
  assert (passports post1 !! 0%nat = Some passportA) as H3 by reflexivity.
  assert (findById (post_id post1) (posts sample_db) = inr (Some post1)) as H4
    by (vm_compute; reflexivity).
  assert (carries entryForA (passport_id passportA)) as H5
    by (exists (JStr (passport_id passportA)); split_and!; vm_compute; reflexivity).
  destruct (update_preserves_postDate sample_db alice sample_now post1 0
              passportA H1 H2 H3) as [Hpost Hentry].
  split_and!; [assumption..| | | |].
  - exact (Hpost (post_id post1) [entryNoId; entryForA] 1%nat entryForA
                 H4 eq_refl H5).
  - exact (Hentry entryForA).
  - vm_compute; reflexivity.
  - vm_compute; reflexivity.
Defined.

Lemma updates_reject_strangers_witness :
  notOwnerNorAdmin (createdBy post1) bob
  ∧ findById (post_id post1) (posts sample_db) = inr (Some post1)
  ∧ locate (passport_id passportB) (posts sample_db) = Some (post1, 1%nat)
  ∧ updatePassportPost sample_db bob sample_now (post_id post1) (Some [entryForA])
    = (Error 403 (Text "Not authorized to update this post"), sample_db)
  ∧ updateSinglePassport sample_db bob sample_now (passport_id passportB) entryNoId
    = (Error 403 (Text "Not authorized to update this passport"), sample_db).
Proof.
  assert (notOwnerNorAdmin (createdBy post1) bob) as H1 by by_compute.
  assert (findById (post_id post1) (posts sample_db) = inr (Some post1)) as H2
    by (vm_compute; reflexivity).
  assert (locate (passport_id passportB) (posts sample_db) = Some (post1, 1%nat))
    as H3 by (vm_compute; reflexivity).
  destruct (updates_reject_strangers sample_db bob sample_now post1 H1)
    as (Hpost & Hentry & _).
  split_and!; [assumption..| |].
  - exact (Hpost _ _ H2).
  - exact (Hentry _ _ _ H3).
Defined.

(** The three deletions carried out for a caller who is neither the owner
    nor an admin. *)
Lemma deletion_ignores_ownership :
  notOwnerNorAdmin (createdBy post1) bob
  ∧ notOwnerNorAdmin (createdBy post2) bob
  ∧ deletePassportPost sample_db bob (post_id post1)
    = (Json 200 (PostDeleted "Passport post deleted successfully"),
       Db [post2] (users sample_db) 0)
  ∧ deleteSinglePassport sample_db bob (passport_id passportC)
    = (Json 200 (DeletedData "Passport deleted successfully"
                   (passport_id passportC) (post_id post2)),
       Db [post1] (users sample_db) 0)
  ∧ deleteMultiplePassports sample_db bob
      (Some [JStr (passport_id passportA); JStr (passport_id passportB)])
    = (Json 200 (BatchData "2 passports deleted successfully" 2
                   [passport_id passportA; passport_id passportB] None),
       Db [post2] (users sample_db) 0).
Proof.
  split_and!; [by_compute|by_compute|vm_compute; reflexivity..].
Qed.

Lemma new_entry_identifier_witness :
  findById (post_id post1) (posts sample_db) = inr (Some post1)
  ∧ (∀ e, e ∈ passports post1 → ¬ carries entryUnknownUpper (passport_id e))
  ∧ (∀ e, e ∈ passports post1 → ¬ carries entryNoId (passport_id e))
  ∧ entryUnknownUpper !! "_id" = Some (JStr "65A1C3E5F7A9B1C3E5F7A9FE")
  ∧ isHex24 "65A1C3E5F7A9B1C3E5F7A9FE" = true
  ∧ (toLower "65A1C3E5F7A9B1C3E5F7A9FE" ∉ passport_id <$> passports post1)
  ∧ entryNoId !! "_id" = None
  ∧ ∃ p' s' e1 e2,
      updatePassportPost sample_db alice sample_now (post_id post1)
        (Some [entryForA; entryUnknownUpper; entryNoId])
      = (Json 200 (PostData p'), s')
      ∧ passports p' !! 1%nat = Some e1
      ∧ passport_id e1 = "65a1c3e5f7a9b1c3e5f7a9fe"
      ∧ postDate e1 = getCurrentIST sample_now
      ∧ passports p' !! 2%nat = Some e2
      ∧ generatedIn sample_db s' (passport_id e2)
      ∧ postDate e2 = getCurrentIST sample_now.
Proof.
  assert (findById (post_id post1) (posts sample_db) = inr (Some post1)) as H1
    by (vm_compute; reflexivity).
  assert (∀ e, e ∈ passports post1 → ¬ carries entryUnknownUpper (passport_id e))
    as H2.
  { intros e He (v & Hv & _ & Hk). vm_compute in Hv. injection Hv as <-.
    assert (passport_id e ∈ passport_id <$> passports post1) as Hin
      by (apply list_elem_of_fmap; eauto).
    rewrite <- Hk in Hin. revert Hin. not_elem_by_compute. }
  assert (∀ e, e ∈ passports post1 → ¬ carries entryNoId (passport_id e)) as H3.
  { intros e _ (v & Hv & _). vm_compute in Hv. discriminate Hv. }
  assert (entryUnknownUpper !! "_id" = Some (JStr "65A1C3E5F7A9B1C3E5F7A9FE"))
    as H4 by (vm_compute; reflexivity).
  assert (isHex24 "65A1C3E5F7A9B1C3E5F7A9FE" = true) as H5
    by (vm_compute; reflexivity).
  assert (toLower "65A1C3E5F7A9B1C3E5F7A9FE" ∉ passport_id <$> passports post1)
    as H6 by not_elem_by_compute.
  assert (entryNoId !! "_id" = None) as H7 by (vm_compute; reflexivity).
  split_and!; [assumption..|].
  pose (r := updatePassportPost sample_db alice sample_now (post_id post1)
               (Some [entryForA; entryUnknownUpper; entryNoId])).
  assert (r = (Json 200 (PostData (default post1 (postOf r.1))), r.2)) as E
    by (vm_compute; reflexivity).
  destruct (new_entry_identifier sample_db alice sample_now (post_id post1)
              [entryForA; entryUnknownUpper; entryNoId] post1 1%nat
              entryUnknownUpper _ _ H1 eq_refl H2 E) as (e1 & He1 & _ & Hkept).
  destruct (new_entry_identifier sample_db alice sample_now (post_id post1)
              [entryForA; entryUnknownUpper; entryNoId] post1 2%nat entryNoId
              _ _ H1 eq_refl H3 E) as (e2 & He2 & Hgen & _).
  destruct (Hkept _ H4 H5 H6) as (Hid1 & _ & Hd1).
  destruct (Hgen H7) as [Hid2 Hd2].
  exists (default post1 (postOf r.1)), r.2, e1, e2.
  split_and!; [exact E|exact He1|exact Hid1|exact Hd1|exact He2|exact Hid2|exact Hd2].
Defined.

(** The claim C6 as the specification words it fails here: the second
    supplied entry carries an identifier that no passport of the post has,
    and it is stored under that very identifier, which the generator did
    not hand out. *)
Lemma supplied_identifier_is_kept :
  let r := updatePassportPost sample_db alice sample_now (post_id post1)
             (Some [entryForA; entryUnknownId]) in
  entryUnknownId !! "_id" = Some (JStr "65a1c3e5f7a9b1c3e5f7a9ff")
  ∧ ("65a1c3e5f7a9b1c3e5f7a9ff" ∉ passport_id <$> passports post1)
  ∧ (∃ p', r.1 = Json 200 (PostData p')
       ∧ passport_id <$> passports p'
         = ["65a1c3e5f7a9b1c3e5f7a901"; "65a1c3e5f7a9b1c3e5f7a9ff"])
  ∧ ¬ generatedIn sample_db r.2 "65a1c3e5f7a9b1c3e5f7a9ff".
Proof.
  intros r. split_and!.
  - vm_compute; reflexivity.
  - not_elem_by_compute.
  - exists (default post1 (postOf r.1)). split; vm_compute; reflexivity.
  - intros (n & Hn & _). vm_compute in Hn. lia.
Qed.

(** The claim C9 as the specification words it fails here: both supplied
    identifiers are deleted, and the response has no list of errors at
    all, rather than an empty one. *)
Lemma all_deleted_omits_errors :
  (deleteMultiplePassports sample_db alice
     (Some [JStr (passport_id passportA); JStr (passport_id passportC)])).1
  = Json 200 (BatchData "2 passports deleted successfully" 2
                [passport_id passportA; passport_id passportC] None).
Proof. vm_compute; reflexivity. Qed.

(** C5, at the input on which the code departs from it: in one post-level
    update the owner supplies two entries that match no stored passport,
    the first with [_id: "constructor"], the second without [_id]. The
    callback takes the first for a stored passport and hands it over with
    [postDate: undefined]; it is stored with the schema default, the plain
    clock reading, while the second is stored with the IST reading of the
    same request. *)
Theorem inherited_key_entry_misses_currentIST :
  let r := updatePassportPost sample_db alice sample_now (post_id post1)
             (Some [entryConstructor; entryNoId]) in
  (∀ e, e ∈ passports post1 → ¬ carries entryConstructor (passport_id e))
  ∧ processPassport (existingPassportsMap post1) (getCurrentIST sample_now)
      entryConstructor !! "postDate" = Some VUndef
  ∧ ∃ p' a b, r.1 = Json 200 (PostData p')
      ∧ passports p' = [a; b]
      ∧ postDate a = sample_now
      ∧ postDate b = getCurrentIST sample_now
      ∧ postDate a ≠ getCurrentIST sample_now.
Proof.
  intros r. split_and!.
  - intros e He (v & Hv & _ & Hk). vm_compute in Hv. injection Hv as <-.
    assert (passport_id e ∈ passport_id <$> passports post1) as Hin
      by (apply list_elem_of_fmap; eauto).
    rewrite <- Hk in Hin. revert Hin. not_elem_by_compute.
  - vm_compute; reflexivity.
  - exists (default post1 (postOf r.1)).
    exists (default passportA (passports (default post1 (postOf r.1)) !! 0%nat)).
    exists (default passportA (passports (default post1 (postOf r.1)) !! 1%nat)).
    split_and!; try (vm_compute; reflexivity).
    vm_compute. discriminate.
Qed.

(** C7, at the input on which the code departs from it: the owner sends an
    entry-level update for [passportA] whose payload has an [_id] of its
    own. The payload is spread after the original [_id], so the passport is
    stored under the identifier of the payload; its [postDate], written
    after the spread, is the original one. *)
Theorem payload_id_replaces_identifier :
  let r := updateSinglePassport sample_db alice sample_now
             (passport_id passportA) entryUnknownId in
  ∃ p' e', r.1 = Json 200 (UpdatedData p' (Some e'))
    ∧ passports p' !! 0%nat = Some e'
    ∧ passport_id e' = "65a1c3e5f7a9b1c3e5f7a9ff"
    ∧ passport_id e' ≠ passport_id passportA
    ∧ postDate e' = postDate passportA
    ∧ (passport_id passportA ∉ allIds (posts r.2)).
Proof.
  intros r.
  exists (default post1 (postOf r.1)).
  exists (default passportA (passports (default post1 (postOf r.1)) !! 0%nat)).
  split_and!; try (vm_compute; reflexivity).
  - vm_compute. discriminate.
  - not_elem_by_compute.
Qed.

(** C10, at the input on which the code departs from it: the account that
    owns [post1] has been deleted, and a caller who is neither that owner
    nor an admin reads a passport of the post. [populate] leaves
    [createdBy] null, the owner test reads a property of it and throws,
    and the read answers 500 instead of 403; it does so to every caller,
    an admin included. On the same store the entry-level update, whose
    owner test reads the stored reference, answers 403; and so does the
    read while the account exists. *)
Theorem read_with_deleted_owner :
  notOwnerNorAdmin (createdBy post1) bob
  ∧ (createdBy post1 ∉ users orphaned_db)
  ∧ locateFind (passport_id passportA) (posts orphaned_db) = Some (post1, passportA)
  ∧ getSinglePassport orphaned_db bob (passport_id passportA)
    = Error 500 (Caught "Error retrieving passport: " TypeErrorNull)
  ∧ getSinglePassport orphaned_db root (passport_id passportA)
    = Error 500 (Caught "Error retrieving passport: " TypeErrorNull)
  ∧ (updateSinglePassport orphaned_db bob sample_now (passport_id passportA)
       entryNoId).1
    = Error 403 (Text "Not authorized to update this passport")
  ∧ getSinglePassport sample_db bob (passport_id passportA)
    = Error 403 (Text "Not authorized to access this passport").
Proof.
  split_and!; [by_compute|not_elem_by_compute|vm_compute; reflexivity..].
Qed.

(** C1, at the input on which the code departs from it: the owner sends a
    post-level update with one entry that names [passportA] by the digits
    of its identifier in upper case. The lookup object is indexed by the
    rendering of the stored identifiers, in lower case, so the callback
    finds nothing, takes the entry for a new passport and gives it the IST
    reading of the request; the cast of [_id] folds the digits, and the
    passport is stored under the identifier of [passportA] with a
    [postDate] that is not the one it had. The same request with the
    digits in lower case keeps the [postDate]. *)
Theorem uppercase_id_entry_loses_postDate :
  let upper := updatePassportPost sample_db alice sample_now (post_id post1)
                 (Some [entryUpperA]) in
  let lower := updatePassportPost sample_db alice sample_now (post_id post1)
                 (Some [entryForA]) in
  passportA ∈ passports post1
  ∧ entryUpperA !! "_id" = Some (JStr "65A1C3E5F7A9B1C3E5F7A901")
  ∧ castObjectId (VJson (JStr "65A1C3E5F7A9B1C3E5F7A901"))
    = Some (passport_id passportA)
  ∧ existingFor (existingPassportsMap post1) entryUpperA = Missing
  ∧ (∃ p' e', upper.1 = Json 200 (PostData p')
       ∧ passports p' = [e']
       ∧ passport_id e' = passport_id passportA
       ∧ postDate e' = getCurrentIST sample_now
       ∧ postDate e' ≠ postDate passportA)
  ∧ (∃ p' e', lower.1 = Json 200 (PostData p')
       ∧ passports p' = [e']
       ∧ passport_id e' = passport_id passportA
       ∧ postDate e' = postDate passportA).
Proof.
  intros upper lower. split_and!.
  - by_compute.
  - vm_compute; reflexivity.
  - vm_compute; reflexivity.
  - vm_compute; reflexivity.
  - exists (default post1 (postOf upper.1)).
    exists (default passportB (passports (default post1 (postOf upper.1)) !! 0%nat)).
    split_and!; try (vm_compute; reflexivity).
    vm_compute. discriminate.
  - exists (default post1 (postOf lower.1)).
    exists (default passportB (passports (default post1 (postOf lower.1)) !! 0%nat)).
    split_and!; vm_compute; reflexivity.
Qed.

Lemma read_rejects_strangers_witness :
  uniqueIds sample_db ∧ post1 ∈ posts sample_db
  ∧ passports post1 !! 1%nat = Some passportB
  ∧ notOwnerNorAdmin (createdBy post1) bob
  ∧ createdBy post1 ∈ users sample_db
  ∧ getSinglePassport sample_db bob (passport_id passportB)
    = Error 403 (Text "Not authorized to access this passport").
Proof.
  assert (uniqueIds sample_db) as H1 by by_compute.
  assert (post1 ∈ posts sample_db) as H2 by by_compute.
  assert (passports post1 !! 1%nat = Some passportB) as H3 by reflexivity.
  assert (notOwnerNorAdmin (createdBy post1) bob) as H4 by by_compute.
  assert (createdBy post1 ∈ users sample_db) as H5 by by_compute.
  destruct (read_rejects_strangers sample_db bob post1 1 passportB H1 H2 H3 H4)
    as [_ H403].
  split_and!; [assumption..|]. exact (H403 H5).
Defined.

(** * More of the controller *)

(** ** Identifiers that no passport has *)

Lemma locateFind_None passportId ps :
  passportId ∉ allIds ps → locateFind passportId ps = None.
Proof.
  intros Hno. destruct (locateFind passportId ps) as [[p e]|] eqn:E; [|done].
  apply locateFind_locate in E as (i & Hl & _).
  apply locate_None in Hno. congruence.
Qed.

(** X1: when no stored passport has the identifier, the entry-level read,
    update and deletion all answer 404, whoever the caller is and whatever
    the payload, and the store is left as it was. *)
Theorem unknown_passport_is_not_found s u now passportId body :
  passportId ∉ allIds (posts s) →
  let notFound := Error 404 (Text ("Passport not found with id " +:+ passportId)) in
  getSinglePassport s u passportId = notFound
  ∧ updateSinglePassport s u now passportId body = (notFound, s)
  ∧ deleteSinglePassport s u passportId = (notFound, s).
Proof.
  intros Hno notFound. split_and!.
  - unfold getSinglePassport. by rewrite locateFind_None.
  - unfold updateSinglePassport. apply locate_None in Hno. by rewrite Hno.
  - unfold deleteSinglePassport. apply locate_None in Hno. by rewrite Hno.
Qed.

(** ** What a deletion removes *)

(** With unique identifiers, a passport identifier tells its post. *)
Lemma uniqueIds_owner ps p q e y :
  NoDup (allIds ps) → p ∈ ps → q ∈ ps →
  e ∈ passports p → y ∈ passports q → passport_id y = passport_id e →
  q = p ∧ y = e.
Proof.
  intros Hnd Hp Hq He Hy E.
  apply list_elem_of_lookup in He as [i Hi].
  apply list_elem_of_lookup in Hy as [j Hj].
  pose proof (locate_unique _ _ _ _ Hnd Hp Hi) as H1.
  pose proof (locate_unique _ _ _ _ Hnd Hq Hj) as H2.
  rewrite E in H2. rewrite H1 in H2. injection H2 as -> ->.
  split; [done|]. congruence.
Qed.

Lemma removePassport_uniquePosts u p i s :
  uniquePosts s → uniquePosts (removePassport u p i s).
Proof.
  unfold uniquePosts, removePassport. intros Hnd. case_decide.
  - simpl. eapply sublist_NoDup; [exact Hnd|].
    apply fmap_sublist, sublist_filter.
  - simpl. rewrite <- list_fmap_compose.
    erewrite list_fmap_ext; [exact Hnd|].
    intros j q _. simpl. by case_decide.
Qed.

Lemma bind_fmap_sublist (f : post → post) (l : list post) :
  (∀ q, q ∈ l → passports (f q) `sublist_of` passports q) →
  (f <$> l) ≫= passports `sublist_of` l ≫= passports.
Proof.
  induction l as [|q l IH]; intros Hq; [done|].
  rewrite fmap_cons, !bind_cons. apply sublist_app.
  - apply Hq. by left.
  - apply IH. intros q' Hq'. apply Hq. by right.
Qed.

(** The identifiers left by a removal are a sublist of those before it. *)
Lemma removePassport_sublist u p i s :
  uniquePosts s → p ∈ posts s →
  allIds (posts (removePassport u p i s)) `sublist_of` allIds (posts s).
Proof.
  intros Hnd Hp. unfold allIds, removePassport. case_decide.
  - apply fmap_sublist, bind_sublist. unfold deleteOne. simpl.
    apply sublist_filter.
  - apply fmap_sublist. unfold save.
    change (posts (Db ?l _ _)) with l. apply bind_fmap_sublist.
    intros q Hq. case_decide as E; [|done].
    assert (q = p) as -> by eauto using uniquePosts_eq.
    simpl. apply sublist_delete.
Qed.

Lemma removePassport_uniqueIds u p i s :
  uniquePosts s → p ∈ posts s → uniqueIds s →
  uniqueIds (removePassport u p i s).
Proof.
  unfold uniqueIds. intros Hnd Hp Hu.
  eapply sublist_NoDup; [exact Hu|]. by apply removePassport_sublist.
Qed.

(** The removed identifier is no longer in the store. *)
Lemma removePassport_gone u p i e s :
  uniqueIds s → p ∈ posts s → passports p !! i = Some e →
  passport_id e ∉ allIds (posts (removePassport u p i s)).
Proof.
  intros Hu Hp Hi Hin. apply elem_of_allIds in Hin as (q & y & Hq & Hy & E).
  assert (e ∈ passports p) as He by by eapply list_elem_of_lookup_2.
  unfold removePassport in Hq. case_decide.
  - apply elem_of_deleteOne in Hq as [Hne Hq].
    destruct (uniqueIds_owner _ _ _ _ _ Hu Hp Hq He Hy E) as [-> _]. done.
  - apply elem_of_save in Hq as [[-> _]|[Hq Hne]].
    + simpl in Hy. pose proof (uniqueIds_within _ _ Hu Hp) as Hnd.
      rewrite <- (take_drop_middle _ _ _ Hi) in Hnd.
      rewrite fmap_app, fmap_cons in Hnd.
      apply NoDup_app in Hnd as (_ & Hdis & Hnd).
      apply NoDup_cons in Hnd as [Hnot _].
      rewrite delete_take_drop in Hy. apply elem_of_app in Hy as [Hy|Hy].
      * apply (Hdis (passport_id e)).
        -- apply list_elem_of_fmap. eauto.
        -- by left.
      * apply Hnot. apply list_elem_of_fmap. eauto.
    + destruct (uniqueIds_owner _ _ _ _ _ Hu Hp Hq He Hy E) as [-> _]. done.
Qed.

(** X2: with unique identifiers in the store, the deletion of a stored
    passport removes that identifier and no other from the store, whether
    it splices the passport out or takes the whole post away; the
    identifiers stay unique, and the same request sent again answers 404
    and changes nothing. *)
Theorem deleteSinglePassport_removes_exactly s u passportId :
  uniqueIds s → uniquePosts s → passportId ∈ allIds (posts s) →
  let s' := (deleteSinglePassport s u passportId).2 in
  (∀ x, x ∈ allIds (posts s') ↔ x ∈ allIds (posts s) ∧ x ≠ passportId)
  ∧ uniqueIds s' ∧ uniquePosts s'
  ∧ deleteSinglePassport s' u passportId
    = (Error 404 (Text ("Passport not found with id " +:+ passportId)), s').
Proof.
  intros Hu Hnd Hin s'.
  destruct (locate_is_Some _ _ Hin) as (p & i & Hl).
  assert (s' = removePassport u p i s) as ->
    by (subst s'; unfold deleteSinglePassport; by rewrite Hl).
  destruct (locate_Some _ _ _ _ Hl) as (Hp & e & Hi & <-).
  pose proof (removePassport_gone u _ _ _ _ Hu Hp Hi) as Hgone.
  split_and!.
  - intros x. split.
    + intros Hx. split; [by eapply removePassport_no_new|]. by intros ->.
    + intros [Hx Hne]. by eapply removePassport_keeps.
  - by apply removePassport_uniqueIds.
  - by apply removePassport_uniquePosts.
  - unfold deleteSinglePassport. apply locate_None in Hgone. by rewrite Hgone.
Qed.

(** ** What a batch deletion removes *)

Lemma batchLoop_spec u ids s ds es :
  uniqueIds s → uniquePosts s →
  let r := batchLoop u ids s ds es in
  (∀ x, x ∈ allIds (posts r.1.1) ↔ x ∈ allIds (posts s) ∧ JStr x ∉ ids)
  ∧ (∀ d, d ∈ passport_id <$> r.1.2 ↔
          d ∈ passport_id <$> ds ∨ (d ∈ allIds (posts s) ∧ JStr d ∈ ids))
  ∧ uniqueIds r.1.1 ∧ uniquePosts r.1.1.
Proof.
  revert s ds es. induction ids as [|v ids IH]; intros s ds es Hu Hnd; simpl.
  - split_and!; [| |done..].
    + intros x. split; [|by intros [? _]]. intros Hx. split; [done|].
      apply not_elem_of_nil.
    + intros d. split; [by left|]. intros [?|[_ Hd]]; [done|].
      by apply elem_of_nil in Hd.
  - destruct (match v with JStr k => locate k (posts s) | _ => None end)
      as [[p i]|] eqn:E.
    + destruct v as [| | |k]; try done.
      destruct (locate_Some _ _ _ _ E) as (Hp & e & He & <-). rewrite He.
      assert (passport_id e ∈ allIds (posts s)) as Hk.
      { apply elem_of_allIds. exists p, e. split_and!; [done| |done].
        by eapply list_elem_of_lookup_2. }
      pose proof (removePassport_gone u _ _ _ _ Hu Hp He) as Hgone.
      assert (∀ x, x ∈ allIds (posts (removePassport u p i s))
                   ↔ x ∈ allIds (posts s) ∧ x ≠ passport_id e) as Hstep.
      { intros x. split.
        - intros Hx. split; [by eapply removePassport_no_new|]. by intros ->.
        - intros [Hx Hne]. by eapply removePassport_keeps. }
      destruct (IH (removePassport u p i s) (ds ++ [e]) es)
        as (IH1 & IH2 & IH3 & IH4);
        [by apply removePassport_uniqueIds|by apply removePassport_uniquePosts|].
      split_and!; [| |done..].
      * intros x. rewrite IH1, Hstep, not_elem_of_cons.
        split; [intros [[? ?] ?]|intros [? [? ?]]]; split_and!; try done;
          congruence.
      * intros d. rewrite IH2, Hstep, fmap_app, elem_of_app, elem_of_cons.
        simpl. rewrite list_elem_of_singleton. split.
        -- intros [[?| ->]|[[? ?] ?]]; eauto.
        -- intros [?|[Hd Hin]]; [by left; left|].
           destruct (decide (d = passport_id e)) as [->|?]; [by left; right|].
           right. split_and!; [done..|].
           destruct Hin as [Ek|?]; [congruence|done].
    + assert (∀ x, x ∈ allIds (posts s) → JStr x ≠ v) as Hv.
      { intros x Hx <-. apply locate_None in E. done. }
      destruct (IH s ds (es ++ [(v, "Passport not found")]) Hu Hnd)
        as (IH1 & IH2 & IH3 & IH4).
      split_and!; [| |done..].
      * intros x. rewrite IH1, not_elem_of_cons.
        split; [|by intros (? & _ & ?)].
        intros [Hx ?]. split_and!; [done| |done]. by apply Hv.
      * intros d. rewrite IH2, elem_of_cons.
        split; [intros [?|[? ?]]; eauto|].
        intros [?|[Hd [E'|?]]]; eauto. by destruct (Hv d Hd).
Qed.

(** X3: with unique identifiers in the store, a batch deletion reports as
    deleted exactly the stored identifiers that the request lists, the
    count being the length of that list, and leaves in the store exactly
    the identifiers that the request does not list; the identifiers stay
    unique. *)
Theorem batch_delete_effect s u ids :
  uniqueIds s → uniquePosts s → ids ≠ [] →
  let r := deleteMultiplePassports s u (Some ids) in
  ∃ msg deleted errors,
    r.1 = Json 200 (BatchData msg (length deleted) deleted errors)
    ∧ (∀ d, d ∈ deleted ↔ d ∈ allIds (posts s) ∧ JStr d ∈ ids)
    ∧ (∀ x, x ∈ allIds (posts r.2) ↔ x ∈ allIds (posts s) ∧ JStr x ∉ ids)
    ∧ uniqueIds r.2 ∧ uniquePosts r.2.
Proof.
  intros Hu Hnd Hne r. subst r. destruct ids as [|v ids]; [done|].
  unfold deleteMultiplePassports.
  destruct (batchLoop_spec u (v :: ids) s [] [] Hu Hnd) as (H1 & H2 & H3 & H4).
  destruct (batchLoop u (v :: ids) s [] []) as [[s' ds] es]. simpl in *.
  unfold batchResponse. eexists _, (passport_id <$> ds), _.
  rewrite length_fmap. split_and!; [reflexivity| |done..].
  intros d. rewrite H2. split; [|by right].
  intros [Hd|?]; [|done]. by apply elem_of_nil in Hd.
Qed.

(** ** The owner of a post *)

Lemma ownersKept_refl s : ownersKept s s.
Proof. intros q Hq. eauto. Qed.

Lemma ownersKept_trans s1 s2 s3 :
  ownersKept s1 s2 → ownersKept s2 s3 → ownersKept s1 s3.
Proof.
  intros H12 H23 q3 Hq3. destruct (H23 q3 Hq3) as (q2 & Hq2 & E1 & E2).
  destruct (H12 q2 Hq2) as (q1 & Hq1 & E3 & E4).
  exists q1. split_and!; [done|congruence..].
Qed.

Lemma ownersKept_deleteOne p s : ownersKept s (deleteOne p s).
Proof. intros q Hq. apply elem_of_deleteOne in Hq as [_ Hq]. eauto. Qed.

(** Saving a post under the identifier and the owner of a stored one. *)
Lemma ownersKept_save p l ub s n :
  p ∈ posts s →
  ownersKept s (save (Post (post_id p) l (createdBy p) ub)
                     (Db (posts s) (users s) n)).
Proof.
  intros Hp q Hq. apply elem_of_save in Hq as [[-> _]|[Hq _]]; eauto.
Qed.

Lemma ownersKept_removePassport u p i s :
  p ∈ posts s → ownersKept s (removePassport u p i s).
Proof.
  intros Hp. unfold removePassport. case_decide.
  - apply ownersKept_deleteOne.
  - replace s with (Db (posts s) (users s) (nextOid s)) at 2 by (by destruct s).
    by apply ownersKept_save.
Qed.

Lemma ownersKept_batchLoop u ids s ds es :
  ownersKept s (batchLoop u ids s ds es).1.1.
Proof.
  revert s ds es. induction ids as [|v ids IH]; intros s ds es; simpl.
  - apply ownersKept_refl.
  - destruct (match v with JStr k => locate k (posts s) | _ => None end)
      as [[p i]|] eqn:E; [|apply IH].
    destruct v as [| | |k]; try done.
    destruct (locate_Some _ _ _ _ E) as (Hp & e & He & _). rewrite He.
    eapply ownersKept_trans; [|apply IH]. by apply ownersKept_removePassport.
Qed.

(** X4: no update and no deletion ever changes the owner of a post: every
    post of the store after the request was in the store before it, under
    the same identifier and with the same [createdBy]. *)
Theorem writes_keep_owner s u now id passportId ps body ids :
  ownersKept s (updatePassportPost s u now id ps).2
  ∧ ownersKept s (updateSinglePassport s u now passportId body).2
  ∧ ownersKept s (deletePassportPost s u id).2
  ∧ ownersKept s (deleteSinglePassport s u passportId).2
  ∧ ownersKept s (deleteMultiplePassports s u ids).2.
Proof.
  split_and!.
  - unfold updatePassportPost.
    destruct (findById id (posts s)) as [?|[p|]] eqn:Hf;
      try apply ownersKept_refl.
    apply findById_Some in Hf as [Hp _].
    case_decide; [apply ownersKept_refl|].
    destruct ps as [[|o ps]|]; try apply ownersKept_refl.
    destruct (castPassports _ _ _) as [[docs n]|]; [|apply ownersKept_refl].
    pose proof (ownersKept_save p docs (Some (user_id u)) s n Hp).
    by destruct (findDoc _ _).
  - unfold updateSinglePassport.
    destruct (locate passportId (posts s)) as [[p i]|] eqn:Hl;
      [|apply ownersKept_refl].
    apply locate_Some in Hl as (Hp & _).
    case_decide; [apply ownersKept_refl|].
    destruct (passports p !! i); [|apply ownersKept_refl].
    destruct (castPassport _ _ _) as [[doc n]|]; [|apply ownersKept_refl].
    pose proof (ownersKept_save p (<[i:=doc]> (passports p))
                  (Some (user_id u)) s n Hp).
    by destruct (findDoc _ _).
  - unfold deletePassportPost.
    destruct (findById id (posts s)) as [?|[p|]]; try apply ownersKept_refl.
    apply ownersKept_deleteOne.
  - unfold deleteSinglePassport.
    destruct (locate passportId (posts s)) as [[p i]|] eqn:Hl;
      [|apply ownersKept_refl].
    apply locate_Some in Hl as (Hp & _). by apply ownersKept_removePassport.
  - unfold deleteMultiplePassports.
    destruct ids as [[|v ids]|]; try apply ownersKept_refl.
    apply ownersKept_batchLoop.
Qed.

(** ** Deleting a whole post *)

Lemma findDoc_None id ps : findDoc id ps = None ↔ id ∉ post_id <$> ps.
Proof.
  induction ps as [|q ps IH].
  - split; [|done]. intros _. apply not_elem_of_nil.
  - rewrite findDoc_cons, fmap_cons, not_elem_of_cons. case_decide as E.
    + split; [done|]. intros [Hne _]. congruence.
    + rewrite IH. split; [|by intros [_ ?]]. intros ?. split; [congruence|done].
Qed.

Lemma findDoc_unique s p :
  uniquePosts s → p ∈ posts s → findDoc (post_id p) (posts s) = Some p.
Proof.
  intros Hnd Hp. destruct (findDoc (post_id p) (posts s)) as [q|] eqn:E.
  - apply findDoc_Some in E as [Hq Eq]. f_equal. by eapply uniquePosts_eq.
  - apply findDoc_None in E. destruct E. apply list_elem_of_fmap. eauto.
Qed.

(** X5: once a post has been deleted, its identifier answers 404 to a
    second deletion, which changes nothing, and to the post-level read;
    its passports, their identifiers being unique in the store, answer 404
    to the entry-level read; the store holds exactly the other posts. *)
Theorem deletePassportPost_then_gone s u id p :
  findById id (posts s) = inr (Some p) → uniqueIds s →
  let s' := (deletePassportPost s u id).2 in
  (∀ q, q ∈ posts s' ↔ q ∈ posts s ∧ post_id q ≠ id)
  ∧ deletePassportPost s' u id
    = (Error 404 (Text ("Post not found with id " +:+ id)), s')
  ∧ getPassportPost s' u id = Error 404 (Text ("Post not found with id " +:+ id))
  ∧ ∀ e, e ∈ passports p →
      getSinglePassport s' u (passport_id e)
      = Error 404 (Text ("Passport not found with id " +:+ passport_id e)).
Proof.
  intros Hf Hu s'.
  assert (s' = deleteOne p s) as ->
    by (subst s'; unfold deletePassportPost; by rewrite Hf).
  destruct (findById_Some _ _ _ Hf) as [Hp Hid].
  assert (findById id (posts (deleteOne p s)) = inr None) as Hgone.
  { unfold findById in *. destruct (isHex24 id); [|done]. f_equal.
    apply findDoc_None. rewrite <- Hid. apply deleteOne_gone. }
  split_and!.
  - intros q. rewrite elem_of_deleteOne, Hid. tauto.
  - unfold deletePassportPost. by rewrite Hgone.
  - unfold getPassportPost. by rewrite Hgone.
  - intros e He. unfold getSinglePassport. rewrite locateFind_None; [done|].
    intros Hin. apply elem_of_allIds in Hin as (q & y & Hq & Hy & E).
    apply elem_of_deleteOne in Hq as [Hne Hq].
    destruct (uniqueIds_owner _ _ _ _ _ Hu Hp Hq He Hy E) as [-> _]. done.
Qed.

(** ** Creating a post *)

(** X6: a creation either is turned down and leaves the store as it was, or
    answers 201 and adds exactly one post at the end of the collection:
    owned by the caller, not yet updated by anyone, with one passport for
    each supplied entry, each of them with the IST reading of the request
    as [postDate]. *)
Theorem createPassportPost_outcome s u now ps :
  let r := createPassportPost s u now ps in
  (r.2 = s ∧ ∀ c b, r.1 ≠ Json c b)
  ∨ ∃ p entries,
      ps = Some entries
      ∧ r.1 = Json 201 (PostData p)
      ∧ posts r.2 = posts s ++ [p]
      ∧ users r.2 = users s
      ∧ createdBy p = user_id u
      ∧ updatedBy p = None
      ∧ length (passports p) = length entries
      ∧ Forall (λ e, postDate e = getCurrentIST now) (passports p).
Proof.
  intros r. subst r. unfold createPassportPost.
  destruct ps as [[|o ps]|]; try (by left).
  destruct (castPassports _ _ _) as [[docs n]|] eqn:Hcast; [|by left].
  right. eexists _, _. split_and!; try reflexivity; simpl.
  - apply castPassports_length in Hcast. by rewrite Hcast, length_fmap.
  - by eapply castPassports_postDate.
Qed.

Lemma locateFind_app passportId l1 l2 :
  passportId ∉ allIds l1 →
  locateFind passportId (l1 ++ l2) = locateFind passportId l2.
Proof.
  induction l1 as [|q l1 IH]; intros Hno; [done|].
  rewrite allIds_cons, not_elem_of_app in Hno. destruct Hno as [Hq Hl1].
  simpl. destruct (list_find _ (passports q)) as [[j y]|] eqn:E; [|by apply IH].
  apply list_find_Some in E as (Hj & Hy & _). destruct Hq.
  apply list_elem_of_fmap. exists y. split; [done|].
  by eapply list_elem_of_lookup_2.
Qed.

(** What the schema keeps of a new entry. *)
Lemma castPassport_new_fields now t (o : jobj) n e' n' :
  castPassport now (<["postDate" := VDate t]> (VJson <$> o)) n = Some (e', n') →
  fields e' = fieldsOf (VJson <$> o) ∧ validPassport (fields e') = true.
Proof.
  intros Hc. apply castPassport_Some in Hc as (_ & _ & Hf & Hv).
  rewrite fieldsOf_insert_other in Hf, Hv by done. by rewrite Hf.
Qed.

(** X7: a passport of a post just created is read back through the
    entry-level read by its creator: the read answers 200 with the stored
    passport, whose [postDate] is the IST reading of the creation and whose
    other paths are what the schema keeps of the supplied entry: they
    satisfy the validators, no path outside the schema is stored, and a
    string supplied at a path of the schema is stored as it is, or trimmed
    when the path has the [trim] setter. The identifiers of the new post
    are taken to be distinct and new to the store. *)
Theorem create_then_read s u now entries p s' k o :
  createPassportPost s u now (Some entries) = (Json 201 (PostData p), s') →
  entries !! k = Some o →
  user_id u ∈ users s →
  NoDup (passport_id <$> passports p) →
  (∀ e, e ∈ passports p → passport_id e ∉ allIds (posts s)) →
  ∃ e, passports p !! k = Some e
    ∧ postDate e = getCurrentIST now
    ∧ fields e = fieldsOf (VJson <$> o)
    ∧ validPassport (fields e) = true
    ∧ (∀ key, stringPaths !! key = None → fields e !! key = None)
    ∧ (∀ key (trimmed : bool) v,
         stringPaths !! key = Some trimmed → o !! key = Some (JStr v) →
         fields e !! key = Some (VJson (JStr (if trimmed then trim v else v))))
    ∧ getSinglePassport s' u (passport_id e)
      = Json 200 (PassportData e (user_id u) (post_id p)).
Proof.
  unfold createPassportPost. intros H Hk Hin Hnd Hnew.
  destruct entries as [|o1 entries]; [done|].
  destruct (castPassports _ _ _) as [[docs n]|] eqn:Hcast; [|done].
  injection H as <- <-. simpl in Hnd, Hnew. simpl.
  assert (((λ passport : jobj,
              <["postDate" := VDate (getCurrentIST now)]> (VJson <$> passport))
             <$> o1 :: entries) !! k
          = Some (<["postDate" := VDate (getCurrentIST now)]> (VJson <$> o)))
    as Hk' by (by rewrite list_lookup_fmap, Hk).
  destruct (castPassports_lookup _ _ _ _ _ _ _ Hcast Hk')
    as (e & m & m' & He & Hc & _).
  destruct (castPassport_new_fields _ _ _ _ _ _ Hc) as [Hf Hv].
  exists e. split_and!; [done| |done..| | |].
  - by apply castPassport_new in Hc as [? _].
  - intros key Hkey. rewrite Hf. by apply fieldsOf_strict.
  - intros key trimmed v Hkey Hv'. rewrite Hf. by apply fieldsOf_string.
  - assert (e ∈ docs) as Hedocs by by eapply list_elem_of_lookup_2.
    unfold getSinglePassport. simpl.
    rewrite locateFind_app by by apply Hnew.
    set (p := Post (genObjectId (nextOid s)) docs (user_id u) None).
    assert (locateFind (passport_id e) [p] = Some (p, e)) as ->.
    { apply locateFind_locate. exists k. split; [|done].
      apply locate_unique; [|by left|done].
      rewrite allIds_cons. unfold allIds. simpl. by rewrite app_nil_r. }
    unfold populate. simpl. rewrite decide_True by done.
    rewrite decide_False; [done|]. by intros [? _].
Qed.

(** ** Updating, then reading *)



(** ** What the post-level update stores *)

(** X9: a post-level update that succeeds replaces the whole list of the
    post: the stored post keeps its identifier and its owner, names the
    caller as [updatedBy], and holds exactly one passport for each supplied
    entry, so stored passports that the request does not send are gone;
    the other posts are untouched. *)
Theorem updatePassportPost_replaces_list s u now id entries p p' s' :
  findById id (posts s) = inr (Some p) →
  updatePassportPost s u now id (Some entries) = (Json 200 (PostData p'), s') →
  post_id p' = post_id p
  ∧ createdBy p' = createdBy p
  ∧ updatedBy p' = Some (user_id u)
  ∧ length (passports p') = length entries
  ∧ p' ∈ posts s'
  ∧ (∀ q, q ∈ posts s' → post_id q = post_id p → q = p')
  ∧ (∀ q, post_id q ≠ post_id p → q ∈ posts s' ↔ q ∈ posts s).
Proof.
  intros Hf. unfold updatePassportPost. rewrite Hf.
  case_decide; [done|]. destruct entries as [|o1 entries]; [done|].
  destruct (castPassports _ _ _) as [[docs n]|] eqn:Hcast; [|done].
  destruct (findById_Some _ _ _ Hf) as [Hp _].
  assert (post_id p ∈ post_id <$> posts s) as Hin
    by (apply list_elem_of_fmap; eauto).
  rewrite (findDoc_save (post_id p)
             (Post (post_id p) docs (createdBy p) (Some (user_id u)))
             (Db (posts s) (users s) n) eq_refl Hin).
  intros [= <- <-]. split_and!; try done.
  - simpl. apply castPassports_length in Hcast. by rewrite Hcast, length_fmap.
  - apply elem_of_save. by left.
  - intros q Hq E. apply elem_of_save in Hq as [[-> _]|[_ Hne]]; done.
  - intros q Hne. rewrite elem_of_save. simpl. split.
    + intros [[-> _]|[? _]]; done.
    + intros Hq. by right.
Qed.

(** ** The two reads *)

(** X10: the post-level read and the entry-level read decide access in the
    same way: for a passport of a stored post, both answer 200, the one
    with the post and the other with the passport, when the caller is the
    owner or an admin, and both answer 403 otherwise; when the account of
    the owner is gone the first throws and the second answers 500. *)
Theorem reads_grant_same_access s u p i e :
  uniqueIds s → uniquePosts s → p ∈ posts s → passports p !! i = Some e →
  isHex24 (post_id p) = true →
  (createdBy p ∈ users s → ¬ notOwnerNorAdmin (createdBy p) u →
   getPassportPost s u (post_id p) = Json 200 (PostData p)
   ∧ getSinglePassport s u (passport_id e)
     = Json 200 (PassportData e (createdBy p) (post_id p)))
  ∧ (createdBy p ∈ users s → notOwnerNorAdmin (createdBy p) u →
     getPassportPost s u (post_id p)
     = Error 403 (Text "Not authorized to access this post")
     ∧ getSinglePassport s u (passport_id e)
       = Error 403 (Text "Not authorized to access this passport"))
  ∧ (createdBy p ∉ users s →
     getPassportPost s u (post_id p) = Thrown TypeErrorNull
     ∧ getSinglePassport s u (passport_id e)
       = Error 500 (Caught "Error retrieving passport: " TypeErrorNull)).
Proof.
  intros Hu Hnd Hp Hi Hhex.
  assert (findById (post_id p) (posts s) = inr (Some p)) as Hf.
  { unfold findById. rewrite Hhex. f_equal. by apply findDoc_unique. }
  assert (locateFind (passport_id e) (posts s) = Some (p, e)) as Hl.
  { apply locateFind_locate. exists i. split; [|done]. by apply locate_unique. }
  unfold getPassportPost, getSinglePassport, populate. rewrite Hf, Hl.
  split_and!.
  - intros Hin Hok. rewrite !decide_True by done.
    rewrite !decide_False by done. by split.
  - intros Hin Hno. rewrite !decide_True by done. by split.
  - intros Hout. rewrite !decide_False by done. by split.
Qed.

(** ** The search by country *)

(** X11: the search by country answers with the stored posts that hold a
    passport whose [issuedCountry] matches the expression, all of them for
    an admin and, for any other caller, only those the caller owns; [count]
    is their number. Nothing is assumed of the sort but that it reorders,
    and nothing of the matching. *)
Theorem country_search_scope
    (sortByCreatedAtDesc : list post → list post)
    (regExp : string → option (string → bool)) s u countryName count data :
  (∀ l, sortByCreatedAtDesc l ≡ₚ l) →
  getPassportsByCountry sortByCreatedAtDesc regExp s u countryName
  = Some (count, data) →
  count = length data
  ∧ ∃ test, regExp countryName = Some test
      ∧ ∀ p, p ∈ data ↔
          p ∈ posts s
          ∧ (∃ e c, e ∈ passports p ∧ issuedCountry e = Some c ∧ test c = true)
          ∧ (user_role u = "admin" ∨ createdBy p = user_id u).
Proof.
  intros Hsort. unfold getPassportsByCountry.
  destruct (regExp countryName) as [test|]; [|done]. simpl.
  intros [= <- <-]. split; [done|]. exists test. split; [done|].
  intros p. rewrite Hsort, list_elem_of_filter. unfold countryQuery.
  rewrite andb_true_iff, orb_true_iff, !bool_decide_eq_true.
  rewrite existsb_exists. split.
  - intros [[(e & He & Ht) Hown] Hp]. split_and!; [done| |done].
    apply list_elem_of_In in He.
    destruct (issuedCountry e) as [c|] eqn:Ec; [|done]. eauto.
  - intros (Hp & (e & c & He & Ec & Ht) & Hown). split_and!; [|done..].
    exists e. split; [by apply list_elem_of_In|]. by rewrite Ec.
Qed.

(** ** The statics of the model against the controller *)

Lemma filter_all {A} (P : A → Prop) `{!∀ x, Decision (P x)} (l : list A) :
  (∀ x, x ∈ l → P x) → filter P l = l.
Proof.
  induction l as [|x l IH]; intros Hall; [done|].
  rewrite filter_cons_True by (apply Hall; by left).
  f_equal. apply IH. intros y Hy. apply Hall. by right.
Qed.

(** With distinct identifiers, filtering an identifier out is splicing at
    the index where it is found. *)
Lemma filter_delete passportId (l : list passport) i :
  NoDup (passport_id <$> l) → findIndex passportId l = Some i →
  filter (λ e, passport_id e ≠ passportId) l = delete i l.
Proof.
  intros Hnd Hf. apply findIndex_Some in Hf as (e & Hi & <- & _).
  rewrite delete_take_drop. rewrite <- (take_drop_middle _ _ _ Hi) at 1.
  rewrite <- (take_drop_middle _ _ _ Hi), fmap_app, fmap_cons in Hnd.
  apply NoDup_app in Hnd as (_ & Hdis & Hnd). apply NoDup_cons in Hnd as [Hnot _].
  rewrite filter_app, filter_cons_False by (by intros ?).
  f_equal; apply filter_all.
  - intros x Hx E. apply (Hdis (passport_id x)).
    + apply list_elem_of_fmap. eauto.
    + rewrite E. by left.
  - intros x Hx E. apply Hnot. rewrite <- E. apply list_elem_of_fmap. eauto.
Qed.

Lemma locate_findIndex passportId ps p i :
  locate passportId ps = Some (p, i) → findIndex passportId (passports p) = Some i.
Proof.
  induction ps as [|q ps IH]; simpl; [done|].
  destruct (findIndex passportId (passports q)) as [j|] eqn:E; [|done].
  by intros [= <- <-].
Qed.

(** On the canonical rendering of an identifier, the query of the statics
    finds the post that the loop of the controller finds. *)
Lemma findOne_locate passportId ps :
  isObjectIdText passportId →
  PassportPost.findOne passportId ps = inr (fst <$> locate passportId ps).
Proof.
  intros [Hhex Hlow]. unfold PassportPost.findOne. rewrite Hhex, Hlow. f_equal.
  induction ps as [|q ps IH]; [done|]. simpl.
  destruct (findIndex passportId (passports q)) as [j|] eqn:E.
  - rewrite decide_True; [done|].
    destruct (decide (passportId ∈ passport_id <$> passports q)) as [?|Hno];
      [done|]. apply findIndex_None in Hno. congruence.
  - rewrite decide_False by by apply findIndex_None.
    rewrite <- IH. by destruct (list_find _ ps) as [[? ?]|].
Qed.

Lemma passportToRemove_locate passportId ps p i :
  locate passportId ps = Some (p, i) →
  PassportPost.passportToRemove passportId p = passports p !! i
  ∧ is_Some (passports p !! i).
Proof.
  intros Hl. apply locate_findIndex in Hl.
  unfold findIndex, PassportPost.passportToRemove in *.
  destruct (list_find _ (passports p)) as [[j e]|] eqn:E; simplify_eq/=.
  apply list_find_Some in E as (Hj & _). rewrite Hj. eauto.
Qed.

(** On a post with distinct identifiers, both removals store the same. *)
Lemma remove_removePassport passportId u ps p i s :
  NoDup (passport_id <$> passports p) →
  locate passportId ps = Some (p, i) →
  PassportPost.remove passportId (user_id u) p s = removePassport u p i s.
Proof.
  intros Hnd Hl. unfold PassportPost.remove, removePassport.
  case_decide; [done|]. rewrite (filter_delete _ _ i); [done..|].
  by eapply locate_findIndex.
Qed.

Lemma removePassport_uniqueWithin u p i s :
  p ∈ posts s → uniqueWithin s → uniqueWithin (removePassport u p i s).
Proof.
  unfold uniqueWithin, removePassport. rewrite !Forall_forall.
  intros Hp Hs. case_decide.
  - intros q Hq. apply elem_of_deleteOne in Hq as [_ Hq]. by apply Hs.
  - intros q Hq. apply elem_of_save in Hq as [[-> _]|[Hq _]]; [|by apply Hs].
    simpl. eapply sublist_NoDup; [by apply (Hs p)|].
    apply fmap_sublist, sublist_delete.
Qed.

(** X12: on a store whose posts have distinct passport identifiers, and on
    the canonical rendering of an identifier, the static
    [deleteSinglePassport] of the model leaves the store that the handler
    of the controller leaves, and returns the passport that was found, or
    [null] when the handler answers not found. *)
Theorem static_delete_agrees s u passportId :
  uniqueWithin s → isObjectIdText passportId →
  let r := PassportPost.deleteSinglePassport s passportId (user_id u) in
  r.2 = (deleteSinglePassport s u passportId).2
  ∧ r.1 = inr (match locateFind passportId (posts s) with
               | Some (_, e) => Some [Some e]
               | None => None
               end).
Proof.
  intros Hw Hid r. subst r.
  unfold PassportPost.deleteSinglePassport, deleteSinglePassport.
  rewrite (findOne_locate _ _ Hid).
  destruct (locate passportId (posts s)) as [[p i]|] eqn:Hl; simpl.
  - destruct (locate_Some _ _ _ _ Hl) as (Hp & e & Hi & _).
    destruct (passportToRemove_locate _ _ _ _ Hl) as [-> _]. rewrite Hi.
    assert (locateFind passportId (posts s) = Some (p, e)) as ->
      by (apply locateFind_locate; eauto).
    split; [|done]. eapply remove_removePassport; [|done].
    unfold uniqueWithin in Hw. rewrite Forall_forall in Hw. by apply Hw.
  - apply locate_None in Hl. by rewrite locateFind_None.
Qed.

Lemma deleteLoop_batchLoop u ids s ds es :
  uniqueWithin s → Forall isObjectIdText ids →
  let r := batchLoop u (JStr <$> ids) s ds es in
  PassportPost.deleteLoop (user_id u) ids s ds = (inr r.1.2, r.1.1).
Proof.
  revert s ds es. induction ids as [|k ids IH]; intros s ds es Hw Hids; [done|].
  apply Forall_cons in Hids as [Hk Hids]. simpl.
  rewrite (findOne_locate _ _ Hk).
  destruct (locate k (posts s)) as [[p i]|] eqn:Hl; simpl.
  - destruct (locate_Some _ _ _ _ Hl) as (Hp & e & Hi & _).
    destruct (passportToRemove_locate _ _ _ _ Hl) as [-> _]. rewrite Hi.
    rewrite (remove_removePassport k u (posts s) p i s);
      [|by apply (proj1 (Forall_forall _ _) Hw)|done].
    apply IH; [by apply removePassport_uniqueWithin|done].
  - by apply IH.
Qed.

(** X13: on a store whose posts have distinct passport identifiers, and on
    canonical renderings of identifiers, the static
    [deleteMultiplePassports] of the model returns the passports that the
    batch deletion of the controller reports as deleted, and leaves the
    same store. *)
Theorem static_batch_agrees s u ids :
  uniqueWithin s → Forall isObjectIdText ids → ids ≠ [] →
  ∃ ds es,
    PassportPost.deleteMultiplePassports s (Some ids) (user_id u)
    = (inr ds, (deleteMultiplePassports s u (Some (JStr <$> ids))).2)
    ∧ (deleteMultiplePassports s u (Some (JStr <$> ids))).1
      = batchResponse ds es.
Proof.
  intros Hw Hids Hne. destruct ids as [|k ids]; [done|].
  pose proof (deleteLoop_batchLoop u (k :: ids) s [] [] Hw Hids) as H.
  unfold PassportPost.deleteMultiplePassports, deleteMultiplePassports.
  rewrite fmap_cons. rewrite fmap_cons in H. simpl in H.
  exists (batchLoop u (JStr k :: (JStr <$> ids)) s [] []).1.2,
         (batchLoop u (JStr k :: (JStr <$> ids)) s [] []).2.
  split; [exact H|done].
Qed.

(** ** Requests that are turned down, and what an update touches *)

(** X14: a write request that is not answered with a JSON body (a 400, 403,
    404 or 500, or an exception) leaves the store exactly as it was; this
    holds of the creation, of both updates and of the three deletions. *)
Theorem rejected_writes_change_nothing s u now id passportId ps body ids :
  let unchanged (r : response * db) :=
    match r.1 with
    | Json _ _ => True
    | _ => r.2 = s
    end in
  unchanged (createPassportPost s u now ps)
  ∧ unchanged (updatePassportPost s u now id ps)
  ∧ unchanged (updateSinglePassport s u now passportId body)
  ∧ unchanged (deletePassportPost s u id)
  ∧ unchanged (deleteSinglePassport s u passportId)
  ∧ unchanged (deleteMultiplePassports s u ids).
Proof.
  intros unchanged. subst unchanged. simpl. split_and!.
  - unfold createPassportPost. destruct ps as [[|o ps]|]; try done.
    by destruct (castPassports _ _ _) as [[docs n]|].
  - unfold updatePassportPost.
    destruct (findById id (posts s)) as [?|[p|]] eqn:Hf; try done.
    apply findById_Some in Hf as [Hp _]. case_decide; [done|].
    destruct ps as [[|o ps]|]; try done.
    destruct (castPassports _ _ _) as [[docs n]|]; [|done].
    rewrite (findDoc_save (post_id p)
               (Post (post_id p) docs (createdBy p) (Some (user_id u)))
               (Db (posts s) (users s) n) eq_refl); [done|].
    apply list_elem_of_fmap. eauto.
  - unfold updateSinglePassport.
    destruct (locate passportId (posts s)) as [[p i]|] eqn:Hl; [|done].
    apply locate_Some in Hl as (Hp & _). case_decide; [done|].
    destruct (passports p !! i); [|done].
    destruct (castPassport _ _ _) as [[doc n]|]; [|done].
    rewrite (findDoc_save (post_id p)
               (Post (post_id p) (<[i:=doc]> (passports p)) (createdBy p)
                     (Some (user_id u)))
               (Db (posts s) (users s) n) eq_refl); [done|].
    apply list_elem_of_fmap. eauto.
  - unfold deletePassportPost. by destruct (findById id (posts s)) as [?|[p|]].
  - unfold deleteSinglePassport. by destruct (locate _ _) as [[p i]|].
  - unfold deleteMultiplePassports. by destruct ids as [[|v ids]|].
Qed.

(** X15: an entry-level update either leaves the store as it was or answers
    200 and replaces, in the post that holds the passport, the passport at
    the addressed position and nothing else: the other passports of the
    post keep their place and content, the post keeps its identifier and
    names the caller as [updatedBy], and the other posts are untouched. *)
Theorem updateSinglePassport_touches_one s u now p i e body :
  uniqueIds s → p ∈ posts s → passports p !! i = Some e →
  let r := updateSinglePassport s u now (passport_id e) body in
  r.2 = s
  ∨ ∃ p' e',
      r.1 = Json 200 (UpdatedData p' (Some e'))
      ∧ p' ∈ posts r.2
      ∧ post_id p' = post_id p
      ∧ updatedBy p' = Some (user_id u)
      ∧ passports p' = <[i := e']> (passports p)
      ∧ (∀ j, j ≠ i → passports p' !! j = passports p !! j)
      ∧ (∀ q, post_id q ≠ post_id p → q ∈ posts r.2 ↔ q ∈ posts s).
Proof.
  intros Hu Hp Hi r. subst r. unfold updateSinglePassport.
  rewrite (locate_unique _ _ _ _ Hu Hp Hi). case_decide; [by left|].
  rewrite Hi. destruct (castPassport _ _ _) as [[doc n]|]; [|by left].
  assert (post_id p ∈ post_id <$> posts s) as Hin
    by (apply list_elem_of_fmap; eauto).
  rewrite (findDoc_save (post_id p)
             (Post (post_id p) (<[i:=doc]> (passports p)) (createdBy p)
                   (Some (user_id u)))
             (Db (posts s) (users s) n) eq_refl Hin).
  right.
  exists (Post (post_id p) (<[i:=doc]> (passports p)) (createdBy p)
               (Some (user_id u))), doc.
  split_and!; try reflexivity.
  - simpl. do 3 f_equal. apply list_lookup_insert_eq.
    by eapply lookup_lt_Some.
  - apply elem_of_save. by left.
  - intros j Hj. simpl. by apply list_lookup_insert_ne.
  - intros q Hne. cbn [snd]. rewrite elem_of_save. simpl. split.
    + intros [[-> _]|[? _]]; done.
    + intros Hq. by right.
Qed.

(** X16: the static [deleteMultiplePassports] of the model does not report
    a malformed identifier: the cast of the query throws at it, the call
    ends with that exception, and the passports named before it have
    already been deleted, as the batch deletion of the controller would
    have deleted them. *)
Theorem static_batch_stops_at_malformed s u good bad rest :
  uniqueWithin s → Forall isObjectIdText good → isHex24 bad = false →
  PassportPost.deleteMultiplePassports s (Some (good ++ bad :: rest)) (user_id u)
  = (inl CastError, (batchLoop u (JStr <$> good) s [] []).1.1).
Proof.
  intros Hw Hgood Hbad.
  assert (∀ ds es s0, uniqueWithin s0 →
            PassportPost.deleteLoop (user_id u) (good ++ bad :: rest) s0 ds
            = (inl CastError, (batchLoop u (JStr <$> good) s0 ds es).1.1)) as Hloop.
  { clear s Hw. induction good as [|k good IH]; intros ds es s Hw.
    - simpl. unfold PassportPost.findOne. by rewrite Hbad.
    - apply Forall_cons in Hgood as [Hk Hgood]. simpl.
      rewrite (findOne_locate _ _ Hk).
      destruct (locate k (posts s)) as [[p i]|] eqn:Hl; simpl.
      + destruct (locate_Some _ _ _ _ Hl) as (Hp & e & Hi & _).
        destruct (passportToRemove_locate _ _ _ _ Hl) as [-> _]. rewrite Hi.
        rewrite (remove_removePassport k u (posts s) p i s);
          [|by apply (proj1 (Forall_forall _ _) Hw)|done].
        apply IH; [done|by apply removePassport_uniqueWithin].
      + by apply IH. }
  assert (∀ l, l ≠ [] →
            PassportPost.deleteMultiplePassports s (Some l) (user_id u)
            = PassportPost.deleteLoop (user_id u) l s []) as ->
    by (by intros [|? ?]).
  - by apply Hloop.
  - by destruct good.
Qed.

(** * Examples for the properties of the controller and of the model *)

Lemma unknown_passport_is_not_found_witness :
  ("65a1c3e5f7a9b1c3e5f7a9ff" ∉ allIds (posts sample_db))
  ∧ getSinglePassport sample_db bob "65a1c3e5f7a9b1c3e5f7a9ff"
    = Error 404 (Text "Passport not found with id 65a1c3e5f7a9b1c3e5f7a9ff")
  ∧ updateSinglePassport sample_db bob sample_now "65a1c3e5f7a9b1c3e5f7a9ff"
      entryNoId
    = (Error 404 (Text "Passport not found with id 65a1c3e5f7a9b1c3e5f7a9ff"),
       sample_db)
  ∧ deleteSinglePassport sample_db bob "65a1c3e5f7a9b1c3e5f7a9ff"
    = (Error 404 (Text "Passport not found with id 65a1c3e5f7a9b1c3e5f7a9ff"),
       sample_db).
Proof.
  assert ("65a1c3e5f7a9b1c3e5f7a9ff" ∉ allIds (posts sample_db)) as H1
    by not_elem_by_compute.
  split; [assumption|].
  exact (unknown_passport_is_not_found sample_db bob sample_now _ entryNoId H1).
Defined.

Lemma deleteSinglePassport_removes_exactly_witness :
  uniqueIds sample_db ∧ uniquePosts sample_db
  ∧ passport_id passportB ∈ allIds (posts sample_db)
  ∧ (let s' := (deleteSinglePassport sample_db alice (passport_id passportB)).2 in
     (∀ x, x ∈ allIds (posts s') ↔
           x ∈ allIds (posts sample_db) ∧ x ≠ passport_id passportB)
     ∧ uniqueIds s' ∧ uniquePosts s'
     ∧ deleteSinglePassport s' alice (passport_id passportB)
       = (Error 404 (Text ("Passport not found with id "
                           +:+ passport_id passportB)), s')).
Proof.
  assert (uniqueIds sample_db) as H1 by by_compute.
  assert (uniquePosts sample_db) as H2 by by_compute.
  assert (passport_id passportB ∈ allIds (posts sample_db)) as H3 by by_compute.
  split_and!; [assumption..|].
  exact (deleteSinglePassport_removes_exactly sample_db alice _ H1 H2 H3).
Defined.

Lemma batch_delete_effect_witness :
  uniqueIds sample_db ∧ uniquePosts sample_db
  ∧ [JStr (passport_id passportA); JNum 7; JStr (passport_id passportA)] ≠ []
  ∧ (let ids := [JStr (passport_id passportA); JNum 7;
                 JStr (passport_id passportA)] in
     let r := deleteMultiplePassports sample_db bob (Some ids) in
     ∃ msg deleted errors,
       r.1 = Json 200 (BatchData msg (length deleted) deleted errors)
       ∧ (∀ d, d ∈ deleted ↔ d ∈ allIds (posts sample_db) ∧ JStr d ∈ ids)
       ∧ (∀ x, x ∈ allIds (posts r.2) ↔
               x ∈ allIds (posts sample_db) ∧ JStr x ∉ ids)
       ∧ uniqueIds r.2 ∧ uniquePosts r.2).
Proof.
  assert (uniqueIds sample_db) as H1 by by_compute.
  assert (uniquePosts sample_db) as H2 by by_compute.
  assert ([JStr (passport_id passportA); JNum 7; JStr (passport_id passportA)]
          ≠ []) as H3 by discriminate.
  split_and!; [assumption..|].
  exact (batch_delete_effect sample_db bob _ H1 H2 H3).
Defined.

Lemma deletePassportPost_then_gone_witness :
  findById (post_id post1) (posts sample_db) = inr (Some post1)
  ∧ uniqueIds sample_db
  ∧ (let s' := (deletePassportPost sample_db alice (post_id post1)).2 in
     deletePassportPost s' alice (post_id post1)
     = (Error 404 (Text ("Post not found with id " +:+ post_id post1)), s')
     ∧ getSinglePassport s' alice (passport_id passportA)
       = Error 404 (Text ("Passport not found with id "
                          +:+ passport_id passportA))).
Proof.
  assert (findById (post_id post1) (posts sample_db) = inr (Some post1)) as H1
    by (vm_compute; reflexivity).
  assert (uniqueIds sample_db) as H2 by by_compute.
  destruct (deletePassportPost_then_gone sample_db alice _ post1 H1 H2)
    as (_ & Htwice & _ & Hread).
  split_and!; [assumption..|]. split; [exact Htwice|].
  apply Hread. by_compute.
Defined.

Lemma create_then_read_witness :
  let r := createPassportPost sample_db bob sample_now
             (Some [entryUnknownId; entryPadded]) in
  ∃ p e,
    r = (Json 201 (PostData p), r.2)
    ∧ user_id bob ∈ users sample_db
    ∧ NoDup (passport_id <$> passports p)
    ∧ (∀ x, x ∈ passports p → passport_id x ∉ allIds (posts sample_db))
    ∧ passports p !! 1%nat = Some e
    ∧ postDate e = getCurrentIST sample_now
    ∧ fields e !! "passportNumber" = Some (VJson (JStr "N0000004"))
    ∧ fields e !! "city" = Some (VJson (JStr "Pune"))
    ∧ fields e !! "link" = Some (VJson (JStr "https://x.test/p"))
    ∧ fields e !! "remark" = None
    ∧ getSinglePassport r.2 bob (passport_id e)
      = Json 200 (PassportData e (user_id bob) (post_id p)).
Proof.
  intros r. set (p := default post1 (postOf r.1)).
  assert (r = (Json 201 (PostData p), r.2)) as H1 by (vm_compute; reflexivity).
  assert (user_id bob ∈ users sample_db) as H2 by by_compute.
  assert (NoDup (passport_id <$> passports p)) as H3 by by_compute.
  assert (∀ x, x ∈ passports p → passport_id x ∉ allIds (posts sample_db)) as H4
    by (apply (proj1 (Forall_forall _ _)); by_compute).
  destruct (create_then_read sample_db bob sample_now
              [entryUnknownId; entryPadded] p r.2 1%nat entryPadded
              H1 eq_refl H2 H3 H4)
    as (e & He & Hd & _ & _ & Hstrict & Hkept & Hread).
  exists p, e. split_and!; [assumption..| | | | |assumption].
  - exact (Hkept "passportNumber" true " N0000004  " eq_refl eq_refl).
  - exact (Hkept "city" true "  Pune " eq_refl eq_refl).
  - exact (Hkept "link" false "https://x.test/p" eq_refl eq_refl).
  - exact (Hstrict "remark" eq_refl).
Defined.


Lemma updatePassportPost_replaces_list_witness :
  let r := updatePassportPost sample_db alice sample_now (post_id post1)
             (Some [entryForA]) in
  ∃ p',
    findById (post_id post1) (posts sample_db) = inr (Some post1)
    ∧ r = (Json 200 (PostData p'), r.2)
    ∧ post_id p' = post_id post1
    ∧ createdBy p' = createdBy post1
    ∧ updatedBy p' = Some (user_id alice)
    ∧ length (passports p') = 1%nat
    ∧ p' ∈ posts r.2.
Proof.
  intros r. set (p' := default post1 (postOf r.1)).
  assert (findById (post_id post1) (posts sample_db) = inr (Some post1)) as H1
    by (vm_compute; reflexivity).
  assert (r = (Json 200 (PostData p'), r.2)) as H2 by (vm_compute; reflexivity).
  destruct (updatePassportPost_replaces_list sample_db alice sample_now
              (post_id post1) [entryForA] post1 p' r.2 H1 H2)
    as (Ha & Hb & Hc & Hd & He & _).
  exists p'. split_and!; assumption.
Defined.

Lemma reads_grant_same_access_witness :
  uniqueIds sample_db ∧ uniquePosts sample_db ∧ post1 ∈ posts sample_db
  ∧ passports post1 !! 0%nat = Some passportA
  ∧ isHex24 (post_id post1) = true
  ∧ createdBy post1 ∈ users sample_db
  ∧ notOwnerNorAdmin (createdBy post1) bob
  ∧ ¬ notOwnerNorAdmin (createdBy post1) root
  ∧ (getPassportPost sample_db bob (post_id post1)
     = Error 403 (Text "Not authorized to access this post")
     ∧ getSinglePassport sample_db bob (passport_id passportA)
       = Error 403 (Text "Not authorized to access this passport"))
  ∧ (getPassportPost sample_db root (post_id post1) = Json 200 (PostData post1)
     ∧ getSinglePassport sample_db root (passport_id passportA)
       = Json 200 (PassportData passportA (createdBy post1) (post_id post1))).
Proof.
  assert (uniqueIds sample_db) as H1 by by_compute.
  assert (uniquePosts sample_db) as H2 by by_compute.
  assert (post1 ∈ posts sample_db) as H3 by by_compute.
  assert (passports post1 !! 0%nat = Some passportA) as H4 by reflexivity.
  assert (isHex24 (post_id post1) = true) as H5 by (vm_compute; reflexivity).
  assert (createdBy post1 ∈ users sample_db) as H6 by by_compute.
  assert (notOwnerNorAdmin (createdBy post1) bob) as H7 by by_compute.
  assert (¬ notOwnerNorAdmin (createdBy post1) root) as H8 by by_compute.
  destruct (reads_grant_same_access sample_db bob post1 0 passportA
              H1 H2 H3 H4 H5) as (_ & Hbob & _).
  destruct (reads_grant_same_access sample_db root post1 0 passportA
              H1 H2 H3 H4 H5) as (Hroot & _ & _).
  do 8 (split; [assumption|]). split.
  - exact (Hbob H6 H7).
  - exact (Hroot H6 H8).
Defined.

Lemma country_search_scope_witness :
  (∀ l : list post, reverse l ≡ₚ l)
  ∧ getPassportsByCountry reverse sampleRegExp sample_db alice "INDIA"
    = Some (2%nat, [post2; post1])
  ∧ getPassportsByCountry reverse sampleRegExp sample_db bob "INDIA"
    = Some (0%nat, [])
  ∧ ∃ test, sampleRegExp "INDIA" = Some test
      ∧ ∀ p, p ∈ [post2; post1] ↔
          p ∈ posts sample_db
          ∧ (∃ e c, e ∈ passports p ∧ issuedCountry e = Some c ∧ test c = true)
          ∧ (user_role alice = "admin" ∨ createdBy p = user_id alice).
Proof.
  assert (∀ l : list post, reverse l ≡ₚ l) as H1 by apply reverse_Permutation.
  assert (getPassportsByCountry reverse sampleRegExp sample_db alice "INDIA"
          = Some (2%nat, [post2; post1])) as H2 by (vm_compute; reflexivity).
  split_and!; [assumption..|vm_compute; reflexivity|].
  exact (proj2 (country_search_scope reverse sampleRegExp sample_db alice
                  "INDIA" _ _ H1 H2)).
Defined.

Lemma static_delete_agrees_witness :
  uniqueWithin sample_db ∧ isObjectIdText (passport_id passportA)
  ∧ (PassportPost.deleteSinglePassport sample_db (passport_id passportA)
       (user_id alice)).2
    = (deleteSinglePassport sample_db alice (passport_id passportA)).2
  ∧ (PassportPost.deleteSinglePassport sample_db (passport_id passportA)
       (user_id alice)).1
    = inr (Some [Some passportA]).
Proof.
  assert (uniqueWithin sample_db) as H1 by by_compute.
  assert (isObjectIdText (passport_id passportA)) as H2
    by (split; vm_compute; reflexivity).
  destruct (static_delete_agrees sample_db alice _ H1 H2) as [Hs Hr].
  split_and!; [assumption..|]. rewrite Hr. vm_compute; reflexivity.
Defined.

Lemma static_batch_agrees_witness :
  uniqueWithin sample_db
  ∧ Forall isObjectIdText [passport_id passportA; passport_id passportC]
  ∧ [passport_id passportA; passport_id passportC] ≠ []
  ∧ ∃ ds es,
      PassportPost.deleteMultiplePassports sample_db
        (Some [passport_id passportA; passport_id passportC]) (user_id alice)
      = (inr ds,
         (deleteMultiplePassports sample_db alice
            (Some (JStr <$> [passport_id passportA; passport_id passportC]))).2)
      ∧ (deleteMultiplePassports sample_db alice
           (Some (JStr <$> [passport_id passportA; passport_id passportC]))).1
        = batchResponse ds es.
Proof.
  assert (uniqueWithin sample_db) as H1 by by_compute.
  assert (Forall isObjectIdText [passport_id passportA; passport_id passportC])
    as H2 by (repeat constructor; vm_compute; reflexivity).
  assert ([passport_id passportA; passport_id passportC] ≠ []) as H3
    by discriminate.
  split_and!; [assumption..|].
  exact (static_batch_agrees sample_db alice _ H1 H2 H3).
Defined.

Lemma updateSinglePassport_touches_one_witness :
  uniqueIds sample_db ∧ post1 ∈ posts sample_db
  ∧ passports post1 !! 0%nat = Some passportA
  ∧ (let r := updateSinglePassport sample_db alice sample_now
                (passport_id passportA) entryNoId in
     succeeded r.1 = true
     ∧ (r.2 = sample_db
        ∨ ∃ p' e',
            r.1 = Json 200 (UpdatedData p' (Some e'))
            ∧ p' ∈ posts r.2
            ∧ post_id p' = post_id post1
            ∧ updatedBy p' = Some (user_id alice)
            ∧ passports p' = <[0%nat := e']> (passports post1)
            ∧ (∀ j, j ≠ 0%nat → passports p' !! j = passports post1 !! j)
            ∧ (∀ q, post_id q ≠ post_id post1 →
                    q ∈ posts r.2 ↔ q ∈ posts sample_db))).
Proof.
  assert (uniqueIds sample_db) as H1 by by_compute.
  assert (post1 ∈ posts sample_db) as H2 by by_compute.
  assert (passports post1 !! 0%nat = Some passportA) as H3 by reflexivity.
  do 3 (split; [assumption|]). split; [vm_compute; reflexivity|].
  exact (updateSinglePassport_touches_one sample_db alice sample_now post1 0
           passportA entryNoId H1 H2 H3).
Defined.

Lemma static_batch_stops_at_malformed_witness :
  uniqueWithin sample_db ∧ Forall isObjectIdText [passport_id passportC]
  ∧ isHex24 "constructor" = false
  ∧ PassportPost.deleteMultiplePassports sample_db
      (Some ([passport_id passportC] ++ "constructor" :: [passport_id passportA]))
      (user_id alice)
    = (inl CastError, Db [post1] (users sample_db) 0).
Proof.
  assert (uniqueWithin sample_db) as H1 by by_compute.
  assert (Forall isObjectIdText [passport_id passportC]) as H2
    by (repeat constructor; vm_compute; reflexivity).
  assert (isHex24 "constructor" = false) as H3 by (vm_compute; reflexivity).
  do 3 (split; [assumption|]).
  etrans; [exact (static_batch_stops_at_malformed sample_db alice _ _
                    [passport_id passportA] H1 H2 H3)|].
  vm_compute; reflexivity.
Defined.
